(** * Dashboards of the school-management application

    A shallow embedding of the librarian dashboard
    (loadLibraryData, handleIssueAction) and of the counselor dashboard
    (loadCounselingRequests, handleRequestAction), together with the part of
    the hosted relational backend that their queries touch.

    - Numbers ([number] in the source) that count copies are whole numbers,
      held by the integer [Z] they denote; their sums and differences are
      rounded as binary64 arithmetic rounds them.
    - Identifiers, dates and status values are strings, as at run time.
    - An update payload ([updateData]) is a JavaScript object: a finite map
      from property names to values.
    - The asynchronous handlers are sequential programs over the backend, the
      component state and a trace of observable events, in a state monad
      with exceptions. *)

From Stdlib Require Import Ascii SpecFloat.
From stdpp Require Import base strings gmap list numbers.

Open Scope Z_scope.

(** ** Numbers *)

(** A [number] is a binary64 floating-point value.  A whole number is held
    exactly when it has at most 53 significant binary digits, so every
    integer up to 2^53 in magnitude is; a sum or difference of whole numbers
    is the exact result rounded to the nearest number that is held, which
    beyond 2^53 is a multiple of the unit in the last of the 53 digits, a
    tie going to the even multiple.  (The model stops short of the largest
    finite number, about 1.8e308, beyond which the source computes
    [Infinity].) *)
Definition round64 (z : Z) : Z :=
  let a := Z.abs z in
  let e := Z.log2 a - 52 in
  if e <=? 0 then z
  else
    let q := a / 2 ^ e in
    let r := a mod 2 ^ e in
    let half := 2 ^ (e - 1) in
    let up := ((half <? r) || ((r =? half) && Z.odd q))%bool in
    Z.sgn z * ((if up then q + 1 else q) * 2 ^ e).

(** [a + b] and [a - b] on numbers. *)
Definition add_number (a b : Z) : Z := round64 (a + b).

Definition sub_number (a b : Z) : Z := round64 (a - b).

(** [Number.isSafeInteger(n)]: one more or one less is still exact. *)
Definition safe_integer (n : Z) : Prop := - 2 ^ 53 < n < 2 ^ 53.

(** The same operations in the Standard Library's specification of IEEE 754
    arithmetic, at the precision and exponent range of binary64. *)
Definition binary64 (z : Z) : spec_float := binary_normalize 53 1024 z 0 false.

Definition whole (x : spec_float) : Z :=
  match x with
  | S754_finite s m e =>
      (if s then -1 else 1)
      * (if 0 <=? e then Z.pos m * 2 ^ e else Z.pos m / 2 ^ (- e))
  | _ => 0
  end.

Definition binary64_add (a b : Z) : Z :=
  whole (SFadd 53 1024 (binary64 a) (binary64 b)).

Definition binary64_sub (a b : Z) : Z :=
  whole (SFsub 53 1024 (binary64 a) (binary64 b)).

(** ** Rows and snapshots *)

Module Book.
Record t := mk
  { id : string;
    title : string;
    author : string;
    total_copies : Z;
    available_copies : Z }.
End Book.

Module Student.
(** The columns of [users] selected by [student:users!student_id(...)]. *)
Record t := mk
  { name : string;
    student_id : string;
    class : string }.
End Student.

Module User.
(** A row of [users]: its primary key and the display columns. *)
Record t := mk
  { id : string;
    profile : Student.t }.
End User.

Module IssueRow.
(** A row of [book_issues] as the backend stores it. *)
Record t := mk
  { id : string;
    status : string;
    issued_date : string;
    due_date : string;
    return_date : option string;
    issued_by : option string;
    book_id : option string;
    student_id : option string }.
End IssueRow.

Module BookIssue.
(** A row of [book_issues] as the dashboard holds it: the row's own
    columns and the two embedded relations, each possibly absent. *)
Record t := mk
  { id : string;
    status : string;
    issued_date : string;
    due_date : string;
    return_date : option string;
    book : option Book.t;
    student : option Student.t }.
End BookIssue.

Module RequestRow.
(** A row of [counseling_requests] as the backend stores it. *)
Record t := mk
  { id : string;
    reason : string;
    message : option string;
    status : string;
    requested_at : string;
    completed_at : option string;
    student_id : option string;
    counselor_id : string }.
End RequestRow.

Module CounselingRequest.
Record t := mk
  { id : string;
    reason : string;
    message : option string;
    status : string;
    requested_at : string;
    completed_at : option string;
    student : option Student.t }.
End CounselingRequest.

(** ** The backend *)

(** Values of the properties of an update payload. *)
Inductive value :=
  | VStr (s : string)
  | VNum (n : Z)
  | VUndefined.

(** A payload; a property holding [undefined] is dropped when the payload is
    serialised, so the backend leaves that column alone. *)
Abbreviation payload := (gmap string value).

Definition str_column (p : payload) (col : string) (old : string) : string :=
  match p !! col with
  | Some (VStr s) => s
  | _ => old
  end.

Definition opt_column (p : payload) (col : string) (old : option string)
  : option string :=
  match p !! col with
  | Some (VStr s) => Some s
  | _ => old
  end.

Definition num_column (p : payload) (col : string) (old : Z) : Z :=
  match p !! col with
  | Some (VNum n) => n
  | _ => old
  end.

(** A partial-row update writes the columns the payload names. *)
Definition patch_book (p : payload) (b : Book.t) : Book.t :=
  Book.mk (str_column p "id" (Book.id b))
          (str_column p "title" (Book.title b))
          (str_column p "author" (Book.author b))
          (num_column p "total_copies" (Book.total_copies b))
          (num_column p "available_copies" (Book.available_copies b)).

Definition patch_issue (p : payload) (r : IssueRow.t) : IssueRow.t :=
  IssueRow.mk (str_column p "id" (IssueRow.id r))
              (str_column p "status" (IssueRow.status r))
              (str_column p "issued_date" (IssueRow.issued_date r))
              (str_column p "due_date" (IssueRow.due_date r))
              (opt_column p "return_date" (IssueRow.return_date r))
              (opt_column p "issued_by" (IssueRow.issued_by r))
              (opt_column p "book_id" (IssueRow.book_id r))
              (opt_column p "student_id" (IssueRow.student_id r)).

Definition patch_request (p : payload) (r : RequestRow.t) : RequestRow.t :=
  RequestRow.mk (str_column p "id" (RequestRow.id r))
                (str_column p "reason" (RequestRow.reason r))
                (opt_column p "message" (RequestRow.message r))
                (str_column p "status" (RequestRow.status r))
                (str_column p "requested_at" (RequestRow.requested_at r))
                (opt_column p "completed_at" (RequestRow.completed_at r))
                (opt_column p "student_id" (RequestRow.student_id r))
                (str_column p "counselor_id" (RequestRow.counselor_id r)).

(** [.update(p).eq('id', key)]: every row whose primary key is [key]. *)
Definition update_eq {R} (key_of : R → string) (patch : R → R)
    (key : string) (rows : list R) : list R :=
  (λ r, if bool_decide (key_of r = key) then patch r else r) <$> rows.

(** The tables.  Each list holds the rows in the order in which the
    dashboard's query returns them ([books] by title, [book_issues] by
    issue date, [counseling_requests] by request time); no update made by
    the dashboards writes a column that the order depends on. *)
Module Db.
Record t := mk
  { books : list Book.t;
    book_issues : list IssueRow.t;
    counseling_requests : list RequestRow.t;
    users : list User.t }.
End Db.

Definition find_by {R} (key_of : R → string) (key : string) (rows : list R)
  : option R :=
  List.find (λ r, bool_decide (key_of r = key)) rows.

(** The embedded relations of a select. *)
Definition join_book (d : Db.t) (ref : option string) : option Book.t :=
  ref ≫= λ k, find_by Book.id k (Db.books d).

Definition join_student (d : Db.t) (ref : option string) : option Student.t :=
  ref ≫= λ k, User.profile <$> find_by User.id k (Db.users d).

Definition issue_view (d : Db.t) (r : IssueRow.t) : BookIssue.t :=
  BookIssue.mk (IssueRow.id r) (IssueRow.status r) (IssueRow.issued_date r)
               (IssueRow.due_date r) (IssueRow.return_date r)
               (join_book d (IssueRow.book_id r))
               (join_student d (IssueRow.student_id r)).

Definition request_view (d : Db.t) (r : RequestRow.t) : CounselingRequest.t :=
  CounselingRequest.mk (RequestRow.id r) (RequestRow.reason r)
               (RequestRow.message r) (RequestRow.status r)
               (RequestRow.requested_at r) (RequestRow.completed_at r)
               (join_student d (RequestRow.student_id r)).

Definition select_books (d : Db.t) : list Book.t := Db.books d.

Definition select_book_issues (d : Db.t) : list BookIssue.t :=
  issue_view d <$> Db.book_issues d.

Definition select_counseling_requests (d : Db.t) (counselor : string)
  : list CounselingRequest.t :=
  request_view d <$>
    List.filter (λ r, bool_decide (RequestRow.counselor_id r = counselor))
                (Db.counseling_requests d).


(** [.from(table).update(p).eq('id', key)] on the tables. *)
Definition apply_update (table : string) (p : payload) (key : string)
    (d : Db.t) : Db.t :=
  if bool_decide (table = "books") then
    Db.mk (update_eq Book.id (patch_book p) key (Db.books d))
          (Db.book_issues d) (Db.counseling_requests d) (Db.users d)
  else if bool_decide (table = "book_issues") then
    Db.mk (Db.books d)
          (update_eq IssueRow.id (patch_issue p) key (Db.book_issues d))
          (Db.counseling_requests d) (Db.users d)
  else if bool_decide (table = "counseling_requests") then
    Db.mk (Db.books d) (Db.book_issues d)
          (update_eq RequestRow.id (patch_request p) key
                     (Db.counseling_requests d))
          (Db.users d)
  else d.

(** ** Programs over the backend *)

(** What a handler does that can be observed from outside. *)
Inductive call :=
  | Select (table : string) (eq_filter : option (string * string))
  | Update (table : string) (p : payload) (key : string).

Inductive event :=
  | Remote (c : call)
  | ConsoleError (msg : string) (error : string)
  | Alert (msg : string).

(** The environment of a dashboard: the tables, the fate of the remote
    calls still to come (the head is the next call's: [Some e] makes it
    answer with the error [e] and no effect, [None] and an exhausted list
    let it through), the reading of the clock, and the events so far. *)
Record world := mk_world
  { store : Db.t;
    transport : list (option string);
    clock : string;
    trace : list event }.

(** The [{ data, error }] answer of a query. *)
Record response (A : Type) := mk_response
  { data : option A;
    error : option string }.
Arguments mk_response {A} _ _.
Arguments data {A} _.
Arguments error {A} _.

Inductive completion (A : Type) :=
  | Normal (a : A)
  | Thrown (e : string).
Arguments Normal {A} _.
Arguments Thrown {A} _.

(** A program over the world and a component state [S]. *)
Definition M (S A : Type) : Type := world * S → completion A * (world * S).

Global Instance M_ret {S} : MRet (M S) := λ A a st, (Normal a, st).

Global Instance M_bind {S} : MBind (M S) := λ A B k m st,
  match m st with
  | (Normal a, st') => k a st'
  | (Thrown e, st') => (Thrown e, st')
  end.

Section Programs.
Context {S : Type}.

Definition throw {A} (e : string) : M S A := λ st, (Thrown e, st).

Definition get_state : M S S := λ st, (Normal (snd st), st).

Definition set_state (f : S → S) : M S () :=
  λ '(w, s), (Normal (), (w, f s)).

Definition emit (ev : event) : M S () :=
  λ '(w, s),
    (Normal (),
     (mk_world (store w) (transport w) (clock w) (trace w ++ [ev]), s)).

(** [console.error(msg, error)] and [alert(msg)]. *)
Definition console_error (msg error : string) : M S () :=
  emit (ConsoleError msg error).

Definition alert (msg : string) : M S () := emit (Alert msg).

(** [new Date().toISOString()]. *)
Definition toISOString : M S string := λ '(w, s), (Normal (clock w), (w, s)).

(** One awaited remote call: it is recorded, takes its fate from the
    transport, and answers. *)
Definition remote {A} (c : call) (run : Db.t → A * Db.t)
  : M S (response A) :=
  λ '(w, s),
    let tr := trace w ++ [Remote c] in
    match transport w with
    | Some e :: rest =>
        (Normal (mk_response None (Some e)),
         (mk_world (store w) rest (clock w) tr, s))
    | fates =>
        let '(a, d) := run (store w) in
        (Normal (mk_response (Some a) None),
         (mk_world d (tail fates) (clock w) tr, s))
    end.

Definition from_select {A} (table : string)
    (eq_filter : option (string * string)) (read : Db.t → A)
  : M S (response A) :=
  remote (Select table eq_filter) (λ d, (read d, d)).

Definition from_update (table : string) (p : payload) (key : string)
  : M S (response ()) :=
  remote (Update table p key) (λ d, ((), apply_update table p key d)).

(** [try { body } catch (error) { handler }]. *)
Definition try_catch {A} (body : M S A) (handler : string → M S A)
  : M S A :=
  λ st,
    match body st with
    | (Normal a, st') => (Normal a, st')
    | (Thrown e, st') => handler e st'
    end.

(** [try { body } catch (error) { handler } finally { final }]. *)
Definition try_catch_finally {A} (body : M S A) (handler : string → M S A)
    (final : M S ()) : M S A :=
  λ st,
    let '(r, st') := try_catch body handler st in
    match final st' with
    | (Normal _, st'') => (r, st'')
    | (Thrown e, st'') => (Thrown e, st'')
    end.

(** [if (res.error) throw res.error]. *)
Definition throw_if_error {A} (res : response A) : M S () :=
  match error res with
  | Some e => throw e
  | None => mret ()
  end.
End Programs.

(** [data || []]. *)
Definition data_or_empty {A} (res : response (list A)) : list A :=
  default [] (data res).

(** [s.split('T')[0]]: the part of [s] before its first [T]. *)
Fixpoint split_T_0 (s : string) : string :=
  match s with
  | EmptyString => EmptyString
  | String c rest =>
      if bool_decide (c = "T"%char) then EmptyString
      else String c (split_T_0 rest)
  end.

(** The authenticated user, as [useAuth()] hands it to a component. *)
Module Auth.
Record t := mk { id : string }.
End Auth.

(** [user?.id] *)
Definition user_id (user : option Auth.t) : option string := Auth.id <$> user.

(** A value used as a condition: an absent and an empty string are falsy. *)
Definition truthy (v : option string) : bool :=
  match v with
  | Some s => negb (bool_decide (s = ""))
  | None => false
  end.

(** [user.id], read past a guard on [user?.id]. *)
Definition id_of (user : option Auth.t) : string := default "" (user_id user).

Definition value_of (v : option string) : value :=
  match v with
  | Some s => VStr s
  | None => VUndefined
  end.

(** ** The librarian dashboard *)

Module Librarian.

Record counts := mk_counts
  { totalBooks : Z;
    availableBooks : Z;
    issuedBooks : nat;
    overdueBooks : nat;
    pendingRequests : nat }.

(** The state of the component ([useState]). *)
Record state := mk_state
  { books : list Book.t;
    bookIssues : list BookIssue.t;
    loading : bool;
    stats : counts }.

(** The initial values of the hooks. *)
Definition initial : state := mk_state [] [] true (mk_counts 0 0 0 0 0).

Definition setBooks (v : list Book.t) : M state () :=
  set_state (λ s, mk_state v (bookIssues s) (loading s) (stats s)).

Definition setBookIssues (v : list BookIssue.t) : M state () :=
  set_state (λ s, mk_state (books s) v (loading s) (stats s)).

Definition setLoading (v : bool) : M state () :=
  set_state (λ s, mk_state (books s) (bookIssues s) v (stats s)).

Definition setStats (v : counts) : M state () :=
  set_state (λ s, mk_state (books s) (bookIssues s) (loading s) v).

(** The counts that [loadLibraryData] derives from what it fetched. *)
Definition count_status (status : string) (issuesData : list BookIssue.t)
  : nat :=
  length (filter (λ issue, BookIssue.status issue = status) issuesData).

Definition derive_stats (booksData : list Book.t)
    (issuesData : list BookIssue.t) : counts :=
  let totalBooks :=
    foldl (λ sum book, add_number sum (Book.total_copies book)) 0
          booksData in
  let availableBooks :=
    foldl (λ sum book, add_number sum (Book.available_copies book)) 0
          booksData in
  let issuedBooks := count_status "issued" issuesData in
  let overdueBooks := count_status "overdue" issuesData in
  let pendingRequests := count_status "requested" issuesData in
  mk_counts totalBooks availableBooks issuedBooks overdueBooks
           pendingRequests.

Definition loadLibraryData : M state () :=
  try_catch_finally
    (booksRes ← from_select "books" None select_books;
     issuesRes ← from_select "book_issues" None select_book_issues;
     throw_if_error booksRes;;
     throw_if_error issuesRes;;
     let booksData := data_or_empty booksRes in
     let issuesData := data_or_empty issuesRes in
     setBooks booksData;;
     setBookIssues issuesData;;
     setStats (derive_stats booksData issuesData))
    (λ error, console_error "Error loading library data:" error)
    (setLoading false).

Inductive action := approve | return_.

(** The action as it appears in a template string. *)
Definition action_text (a : action) : string :=
  match a with
  | approve => "approve"
  | return_ => "return"
  end.

Section Handler.
Variable user : option Auth.t.

Definition handleIssueAction (issueId : string) (act : action)
  : M state () :=
  try_catch
    (updateData ←
       match act with
       | approve =>
           mret (<["issued_by" := value_of (user_id user)]>
                   (<["status" := VStr "issued"]> (∅ : payload)))
       | return_ =>
           iso ← toISOString;
           mret (<["return_date" := VStr (split_T_0 iso)]>
                   (<["status" := VStr "returned"]> (∅ : payload)))
       end;
     res ← from_update "book_issues" updateData issueId;
     throw_if_error res;;
     s ← get_state;
     match act with
     | approve =>
         let issue := find_by BookIssue.id issueId (bookIssues s) in
         match issue ≫= BookIssue.book with
         | Some book =>
             from_update "books"
               {[ "available_copies" :=
                    VNum (sub_number (Book.available_copies book) 1) ]}
               (Book.id book);;
             mret ()
         | None => mret ()
         end
     | return_ =>
         let issue := find_by BookIssue.id issueId (bookIssues s) in
         match issue ≫= BookIssue.book with
         | Some book =>
             from_update "books"
               {[ "available_copies" :=
                    VNum (add_number (Book.available_copies book) 1) ]}
               (Book.id book);;
             mret ()
         | None => mret ()
         end
     end;;
     loadLibraryData;;
     alert ("Book " +:+
            match act with approve => "issued" | return_ => "returned" end
            +:+ " successfully!"))
    (λ error,
       console_error ("Error " +:+ action_text act +:+ "ing book:") error;;
       alert ("Failed to " +:+ action_text act
              +:+ " book. Please try again.")).

(** Actions taken one after the other, as the user clicks. *)
Fixpoint handleIssueActions (acts : list (string * action))
  : M state () :=
  match acts with
  | [] => mret ()
  | (issueId, act) :: rest =>
      handleIssueAction issueId act;;
      handleIssueActions rest
  end.
End Handler.

(** The component after its first load ([useEffect] on mount). *)
Definition mount (w : world) : world * state :=
  snd (loadLibraryData (w, initial)).

End Librarian.

(** ** The counselor dashboard *)

Module Counselor.

Record counts := mk_counts
  { totalRequests : nat;
    pendingRequests : nat;
    activeRequests : nat;
    completedRequests : nat }.

Record state := mk_state
  { requests : list CounselingRequest.t;
    loading : bool;
    stats : counts }.

Definition initial : state := mk_state [] true (mk_counts 0 0 0 0).

Definition setRequests (v : list CounselingRequest.t) : M state () :=
  set_state (λ s, mk_state v (loading s) (stats s)).

Definition setLoading (v : bool) : M state () :=
  set_state (λ s, mk_state (requests s) v (stats s)).

Definition setStats (v : counts) : M state () :=
  set_state (λ s, mk_state (requests s) (loading s) v).

Definition count_status (status : string)
    (requestsData : list CounselingRequest.t) : nat :=
  length (filter (λ r, CounselingRequest.status r = status) requestsData).

Definition derive_stats (requestsData : list CounselingRequest.t) : counts :=
  mk_counts (length requestsData)
           (count_status "pending" requestsData)
           (count_status "accepted" requestsData)
           (count_status "completed" requestsData).

Inductive action := accept | complete.

Definition action_text (a : action) : string :=
  match a with
  | accept => "accept"
  | complete => "complete"
  end.

Section Handler.
Variable user : option Auth.t.

Definition loadCounselingRequests : M state () :=
  if negb (truthy (user_id user)) then mret ()
  else
    try_catch_finally
      (res ← from_select "counseling_requests"
               (Some ("counselor_id", id_of user))
               (λ d, select_counseling_requests d (id_of user));
       throw_if_error res;;
       let requestsData := data_or_empty res in
       setRequests requestsData;;
       setStats (derive_stats requestsData))
      (λ error, console_error "Error loading counseling requests:" error)
      (setLoading false).

Definition handleRequestAction (requestId : string) (act : action)
  : M state () :=
  try_catch
    (let updateData : payload :=
       {[ "status" :=
            VStr (match act with
                  | accept => "accepted"
                  | complete => "completed"
                  end) ]} in
     updateData ←
       match act with
       | complete =>
           iso ← toISOString;
           mret (<["completed_at" := VStr iso]> updateData)
       | accept => mret updateData
       end;
     res ← from_update "counseling_requests" updateData requestId;
     throw_if_error res;;
     loadCounselingRequests;;
     alert ("Request " +:+ action_text act +:+ "ed successfully!"))
    (λ error,
       console_error ("Error " +:+ action_text act +:+ "ing request:")
                     error;;
       alert ("Failed to " +:+ action_text act
              +:+ " request. Please try again.")).
End Handler.

End Counselor.

(** ** Observations on a run *)

(** The next remote calls' fates, counted from the coming one. *)
Definition fate (w : world) (n : nat) : option string :=
  default None (transport w !! n).

(** The partial-row updates among the events, oldest first. *)
Definition writes (tr : list event) : list (string * payload * string) :=
  omap (λ ev, match ev with
              | Remote (Update table p key) => Some (table, p, key)
              | _ => None
              end) tr.

(** The messages shown to the user, oldest first. *)
Definition alerts (tr : list event) : list string :=
  omap (λ ev, match ev with Alert msg => Some msg | _ => None end) tr.

(** ** Vocabulary of the statements *)

(** The error that aborts a load: that of the first failing query. *)
Fixpoint first_fault (queries : nat) (fates : list (option string))
    {struct queries} : option string :=
  match queries, fates with
  | S n, Some e :: _ => Some e
  | S n, None :: rest => first_fault n rest
  | _, _ => None
  end.

Definition first_error (w : world) (queries : nat) : option string :=
  first_fault queries (transport w).

(** The world after [n] remote calls that left the tables alone and the
    events [evs]. *)
Definition after_calls (w : world) (n : nat) (evs : list event) : world :=
  mk_world (store w) (drop n (transport w)) (clock w) (trace w ++ evs).

(** The two queries of a library load. *)
Definition library_queries : list event :=
  [Remote (Select "books" None); Remote (Select "book_issues" None)].

(** The librarian's state after a load that fetched the tables [d]. *)
Definition fetched (d : Db.t) : Librarian.state :=
  Librarian.mk_state (select_books d) (select_book_issues d) false
    (Librarian.derive_stats (select_books d) (select_book_issues d)).

(** The librarian's state after a load that failed. *)
Definition stopped (s : Librarian.state) : Librarian.state :=
  Librarian.mk_state (Librarian.books s) (Librarian.bookIssues s) false
    (Librarian.stats s).

(** The world after one partial-row update has been awaited. *)
Definition written (table : string) (p : payload) (key : string) (w : world)
  : world :=
  mk_world
    (match fate w 0 with
     | Some _ => store w
     | None => apply_update table p key (store w)
     end)
    (drop 1 (transport w)) (clock w)
    (trace w ++ [Remote (Update table p key)]).

(** The payload of the status write. *)
Definition issue_payload (user : option Auth.t) (act : Librarian.action)
    (w : world) : payload :=
  match act with
  | Librarian.approve =>
      <["issued_by" := value_of (user_id user)]>
        (<["status" := VStr "issued"]> ∅)
  | Librarian.return_ =>
      <["return_date" := VStr (split_T_0 (clock w))]>
        (<["status" := VStr "returned"]> ∅)
  end.

(** The inventory write: its payload and key, when the issue is held with
    its book. *)
Definition inventory_write (act : Librarian.action) (issueId : string)
    (s : Librarian.state) : option (payload * string) :=
  book ← find_by BookIssue.id issueId (Librarian.bookIssues s)
         ≫= BookIssue.book;
  Some ({[ "available_copies" :=
             VNum (match act with
                   | Librarian.approve =>
                       sub_number (Book.available_copies book) 1
                   | Librarian.return_ =>
                       add_number (Book.available_copies book) 1
                   end) ]},
        Book.id book).

(** The dashboard after it has shown [msg]. *)
Definition said (msg : string) (st : world * Librarian.state)
  : world * Librarian.state :=
  (after_calls (fst st) 0 [Alert msg], snd st).

(** The messages of the two outcomes, templates filled in. *)
Definition success_text (act : Librarian.action) : string :=
  match act with
  | Librarian.approve => "Book issued successfully!"
  | Librarian.return_ => "Book returned successfully!"
  end.

Definition failure_events (act : Librarian.action) (e : string) : list event :=
  match act with
  | Librarian.approve =>
      [ConsoleError "Error approveing book:" e;
       Alert "Failed to approve book. Please try again."]
  | Librarian.return_ =>
      [ConsoleError "Error returning book:" e;
       Alert "Failed to return book. Please try again."]
  end.

(** The query of a counselor's load, and the states it can end in. *)
Definition requests_query (user : option Auth.t) : event :=
  Remote (Select "counseling_requests" (Some ("counselor_id", id_of user))).

Definition fetched_requests (user : option Auth.t) (d : Db.t)
  : Counselor.state :=
  let requestsData := select_counseling_requests d (id_of user) in
  Counselor.mk_state requestsData false (Counselor.derive_stats requestsData).

Definition stopped_requests (s : Counselor.state) : Counselor.state :=
  Counselor.mk_state (Counselor.requests s) false (Counselor.stats s).

(** The payload of the status write of a counseling request. *)
Definition request_payload (act : Counselor.action) (w : world) : payload :=
  match act with
  | Counselor.accept => {[ "status" := VStr "accepted" ]}
  | Counselor.complete =>
      <["completed_at" := VStr (clock w)]> {[ "status" := VStr "completed" ]}
  end.

Definition request_success_text (act : Counselor.action) : string :=
  match act with
  | Counselor.accept => "Request accepted successfully!"
  | Counselor.complete => "Request completeed successfully!"
  end.

Definition request_failure_events (act : Counselor.action) (e : string)
  : list event :=
  match act with
  | Counselor.accept =>
      [ConsoleError "Error accepting request:" e;
       Alert "Failed to accept request. Please try again."]
  | Counselor.complete =>
      [ConsoleError "Error completeing request:" e;
       Alert "Failed to complete request. Please try again."]
  end.

(** The columns of a counseling request that no action may touch. *)
Definition same_request_frame (act : Counselor.action)
    (r r' : RequestRow.t) : Prop :=
  RequestRow.id r' = RequestRow.id r
  ∧ RequestRow.reason r' = RequestRow.reason r
  ∧ RequestRow.message r' = RequestRow.message r
  ∧ RequestRow.requested_at r' = RequestRow.requested_at r
  ∧ RequestRow.student_id r' = RequestRow.student_id r
  ∧ RequestRow.counselor_id r' = RequestRow.counselor_id r
  ∧ (act = Counselor.accept →
     RequestRow.completed_at r' = RequestRow.completed_at r).

(** The environment just before the reload of an accepted action. *)
Definition before_reload user issueId act (w : world) (s : Librarian.state)
  : world :=
  let w1 := written "book_issues" (issue_payload user act w) issueId w in
  match inventory_write act issueId s with
  | Some (q, k) => written "books" q k w1
  | None => w1
  end.

(** The table and key of each partial-row update among the events. *)
Definition write_targets (tr : list event) : list (string * string) :=
  (λ x : string * payload * string, (x.1.1, x.2)) <$> writes tr.

(** The sum of a column over the books. *)
Definition total_of (f : Book.t → Z) (l : list Book.t) : Z :=
  foldr (λ b acc, f b + acc) 0 l.

(** The number of return actions in a sequence. *)
Definition returns (acts : list (string * Librarian.action)) : Z :=
  foldr (λ a n, match a.2 with
                | Librarian.return_ => 1 + n
                | Librarian.approve => n
                end) 0 acts.

(** The larger of the held and the stored count, book by book. *)
Fixpoint potential (held stored : list Book.t) : Z :=
  match held, stored with
  | v :: held', d :: stored' =>
      Z.max (Book.available_copies v) (Book.available_copies d)
      + potential held' stored'
  | _, _ => 0
  end.

(** What a run of actions keeps true of the tables and the snapshot. *)
Definition in_step (bound : Z) (totals : list Z)
    (st : world * Librarian.state) : Prop :=
  let stored := Db.books (store (fst st)) in
  let held := Librarian.books (snd st) in
  NoDup (Book.id <$> stored)
  ∧ Book.id <$> held = Book.id <$> stored
  ∧ (∀ i b, i ∈ Librarian.bookIssues (snd st) → BookIssue.book i = Some b →
            b ∈ held)
  ∧ Book.total_copies <$> stored = totals
  ∧ potential held stored ≤ bound.

(** By how much one action may raise the copies. *)
Definition step_cost (act : Librarian.action) : Z :=
  match act with
  | Librarian.approve => 0
  | Librarian.return_ => 1
  end.

(** ** Sample libraries and queues *)

(** A counselor's queue with one pending request. *)
Definition pending_request : RequestRow.t :=
  RequestRow.mk "r1" "exam stress" None "pending" "2024-04-30T08:00:00.000Z"
                None (Some "u7") "c1".

Definition counselor_world : world :=
  mk_world (Db.mk [] [] [pending_request]
                  [User.mk "u7" (Student.mk "Asha" "S-007" "10-B")])
           [] "2024-05-01T10:00:00.000Z" [].

Definition counselor_user : option Auth.t := Some (Auth.mk "c1").

(** The counselor's component after its first load. *)
Definition counselor_mounted : world * Counselor.state :=
  snd (Counselor.loadCounselingRequests counselor_user
         (counselor_world, Counselor.initial)).

(** A library whose only book has no copy left, requested once more. *)
Definition out_of_stock_world : world :=
  mk_world
    (Db.mk [Book.mk "b1" "Dune" "F. Herbert" 1 0]
           [IssueRow.mk "i1" "requested" "2024-04-28" "2024-05-12" None None
                        (Some "b1") (Some "u7")]
           []
           [User.mk "u7" (Student.mk "Asha" "S-007" "10-B")])
    [] "2024-05-01T10:00:00.000Z" [].

Definition librarian_user : option Auth.t := Some (Auth.mk "lib1").

Definition out_of_stock_book : Book.t := Book.mk "b1" "Dune" "F. Herbert" 1 0.

Definition out_of_stock_issue : BookIssue.t :=
  BookIssue.mk "i1" "requested" "2024-04-28" "2024-05-12" None
               (Some out_of_stock_book)
               (Some (Student.mk "Asha" "S-007" "10-B")).

(** A library whose only book is fully in stock although one issue of it is
    still recorded as issued. *)
Definition full_stock_world : world :=
  mk_world
    (Db.mk [Book.mk "b1" "Dune" "F. Herbert" 2 2]
           [IssueRow.mk "i1" "issued" "2024-04-28" "2024-05-12" None
                        (Some "lib1") (Some "b1") (Some "u7")]
           []
           [User.mk "u7" (Student.mk "Asha" "S-007" "10-B")])
    [] "2024-05-01T10:00:00.000Z" [].

Definition full_stock_book : Book.t := Book.mk "b1" "Dune" "F. Herbert" 2 2.

Definition full_stock_issue : BookIssue.t :=
  BookIssue.mk "i1" "issued" "2024-04-28" "2024-05-12" None
               (Some full_stock_book)
               (Some (Student.mk "Asha" "S-007" "10-B")).

(** A library whose backend stops answering after the first load. *)
Definition failing_world : world :=
  mk_world
    (Db.mk [Book.mk "b1" "Dune" "F. Herbert" 2 2]
           [IssueRow.mk "i1" "requested" "2024-04-28" "2024-05-12" None None
                        (Some "b1") (Some "u7")]
           []
           [User.mk "u7" (Student.mk "Asha" "S-007" "10-B")])
    [None; None; Some "connection lost"] "2024-05-01T10:00:00.000Z" [].

Section Scenario.
Variables (bookId title author issueId issued_date due_date now : string).
Variables (student : option string) (people : list User.t).
Variable user : option Auth.t.

(** One book with two copies, both available, and one request for it; the
    backend answers every call. *)
Definition scenario_world : world :=
  mk_world
    (Db.mk [Book.mk bookId title author 2 2]
           [IssueRow.mk issueId "requested" issued_date due_date None None
                        (Some bookId) student]
           [] people)
    [] now [].

Definition after_approve : world * Librarian.state :=
  snd (Librarian.handleIssueAction user issueId Librarian.approve
         (Librarian.mount scenario_world)).

Definition after_return : world * Librarian.state :=
  snd (Librarian.handleIssueAction user issueId Librarian.return_
         after_approve).
End Scenario.

(** The scenario's tables after the approval and after the return. *)
Definition scenario_db (copies : Z) (status : string)
    (return_date issued_by : option string)
    (bookId title author issueId issued_date due_date : string)
    (student : option string) (people : list User.t) : Db.t :=
  Db.mk [Book.mk bookId title author 2 copies]
        [IssueRow.mk issueId status issued_date due_date return_date
                     issued_by (Some bookId) student]
        [] people.

(** A library whose backend answers the first load and one action, and
    then fails. *)
Definition reload_failing_world : world :=
  mk_world
    (Db.mk [Book.mk "b1" "Dune" "F. Herbert" 2 2]
           [IssueRow.mk "i1" "requested" "2024-04-28" "2024-05-12" None None
                        (Some "b1") (Some "u7")]
           []
           [User.mk "u7" (Student.mk "Asha" "S-007" "10-B")])
    [None; None; None; None; Some "timeout"] "2024-05-01T10:00:00.000Z" [].

Definition first_load_failing_world : world :=
  mk_world (store reload_failing_world) [Some "timeout"]
           "2024-05-01T10:00:00.000Z" [].

(** A library with one copy of its only book, lent out. *)
Definition lent_out_world : world :=
  mk_world
    (Db.mk [Book.mk "b1" "Dune" "F. Herbert" 1 0]
           [IssueRow.mk "i1" "issued" "2024-04-28" "2024-05-12" None
                        (Some "lib1") (Some "b1") (Some "u7")]
           []
           [User.mk "u7" (Student.mk "Asha" "S-007" "10-B")])
    [] "2024-05-01T10:00:00.000Z" [].

(** Rows for the statistics, and the same rows in another order. *)
Definition sample_books : list Book.t :=
  [Book.mk "b1" "Dune" "F. Herbert" 3 1; Book.mk "b2" "Emma" "J. Austen" 2 2].

Definition sample_issue (id status : string) : BookIssue.t :=
  BookIssue.mk id status "2024-04-28" "2024-05-12" None None None.

Definition sample_issues : list BookIssue.t :=
  [sample_issue "i1" "issued"; sample_issue "i2" "requested";
   sample_issue "i3" "issued"; sample_issue "i4" "overdue";
   sample_issue "i5" "issued"].

Definition sample_requests : list CounselingRequest.t :=
  [CounselingRequest.mk "r1" "exam stress" None "pending"
     "2024-04-30T08:00:00.000Z" None None;
   CounselingRequest.mk "r2" "career" None "accepted"
     "2024-04-29T08:00:00.000Z" None None].

(** ** What the dashboards render *)

(** The badge of a status: the class of its [span], the icon component
    looked up for it, and its label. *)
Module Badge.
Record t := mk
  { className : string;
    icon : option string;
    label : string }.
End Badge.

(** [c.toUpperCase()] for a character of the ASCII range. *)
Definition toUpperCase (c : ascii) : ascii :=
  let n := nat_of_ascii c in
  if (97 <=? n)%nat && (n <=? 122)%nat then ascii_of_nat (n - 32) else c.

(** [s.charAt(0).toUpperCase() + s.slice(1)]. *)
Definition capitalized (s : string) : string :=
  match s with
  | EmptyString => EmptyString
  | String c rest => String (toUpperCase c) rest
  end.

(** A looked-up string inside a template: [undefined] prints as such. *)
Definition in_template (v : option string) : string := default "undefined" v.

(** The badge both dashboards build from their two tables (own properties
    of the object literals). *)
Definition badge_of (styles icons : gmap string string) (status : string)
  : Badge.t :=
  let Icon := icons !! status in
  Badge.mk
    ("inline-flex items-center px-2.5 py-0.5 rounded-full text-xs font-medium border "
     +:+ in_template (styles !! status))
    Icon
    (capitalized status).

(** The librarian's page.  The greeting and the cells that print a date in
    the locale's format are left out.  [render] gives the elements that the
    component returns.  For a status that the two tables do not cover the
    icon that is looked up is [undefined], which React refuses to render:
    what the page then shows is stated for rows with a covered status. *)
Module LibrarianView.

Definition styles : gmap string string :=
  {[ "requested" := "bg-yellow-100 text-yellow-800 border-yellow-200";
     "issued" := "bg-blue-100 text-blue-800 border-blue-200";
     "returned" := "bg-green-100 text-green-800 border-green-200";
     "overdue" := "bg-red-100 text-red-800 border-red-200" ]}.

Definition icons : gmap string string :=
  {[ "requested" := "Clock";
     "issued" := "BookOpen";
     "returned" := "CheckCircle";
     "overdue" := "AlertTriangle" ]}.

Definition getStatusBadge (status : string) : Badge.t :=
  badge_of styles icons status.

(** One row of the table of recent issues. *)
Record row := mk_row
  { key : string;
    title : option string;
    author : option string;
    student : option Student.t;
    badge : Badge.t;
    buttons : list Librarian.action }.

Inductive table :=
  | NoBookIssuesFound
  | Rows (rows : list row).

Inductive t :=
  | Spinner
  | Page (cards : Librarian.counts) (recent : table).

(** The buttons of a row: Approve on a requested issue, Mark Returned on an
    issued one. *)
Definition buttons_of (issue : BookIssue.t) : list Librarian.action :=
  (if bool_decide (BookIssue.status issue = "requested")
   then [Librarian.approve] else [])
  ++ (if bool_decide (BookIssue.status issue = "issued")
      then [Librarian.return_] else []).

Definition row_of (issue : BookIssue.t) : row :=
  mk_row (BookIssue.id issue)
         (Book.title <$> BookIssue.book issue)
         (Book.author <$> BookIssue.book issue)
         (BookIssue.student issue)
         (getStatusBadge (BookIssue.status issue))
         (buttons_of issue).

Definition render (s : Librarian.state) : t :=
  if Librarian.loading s then Spinner
  else
    Page (Librarian.stats s)
         (if bool_decide (length (take 10 (Librarian.bookIssues s)) = 0%nat)
          then NoBookIssuesFound
          else Rows (row_of <$> take 10 (Librarian.bookIssues s))).

(** The clicks a page accepts: each button calls [handleIssueAction] with
    its row's issue id and its action. *)
Definition clicks (page : t) : list (string * Librarian.action) :=
  match page with
  | Page _ (Rows rows) => r ← rows; (λ act, (key r, act)) <$> buttons r
  | _ => []
  end.

End LibrarianView.

(** The counselor's page, with the same omissions. *)
Module CounselorView.

Definition styles : gmap string string :=
  {[ "pending" := "bg-yellow-100 text-yellow-800 border-yellow-200";
     "accepted" := "bg-blue-100 text-blue-800 border-blue-200";
     "completed" := "bg-green-100 text-green-800 border-green-200";
     "cancelled" := "bg-red-100 text-red-800 border-red-200" ]}.

Definition icons : gmap string string :=
  {[ "pending" := "Clock";
     "accepted" := "MessageCircle";
     "completed" := "CheckCircle";
     "cancelled" := "Clock" ]}.

Definition getStatusBadge (status : string) : Badge.t :=
  badge_of styles icons status.

(** One card of the list of recent requests; the message is shown when it
    is present and not empty. *)
Record card := mk_card
  { key : string;
    reason : string;
    message : option string;
    student : option Student.t;
    badge : Badge.t;
    buttons : list Counselor.action }.

Inductive list_ :=
  | NoCounselingRequests
  | Cards (cards : list card).

Inductive t :=
  | Spinner
  | Page (cards : Counselor.counts) (recent : list_).

Definition buttons_of (request : CounselingRequest.t)
  : list Counselor.action :=
  (if bool_decide (CounselingRequest.status request = "pending")
   then [Counselor.accept] else [])
  ++ (if bool_decide (CounselingRequest.status request = "accepted")
      then [Counselor.complete] else []).

Definition card_of (request : CounselingRequest.t) : card :=
  mk_card (CounselingRequest.id request)
          (CounselingRequest.reason request)
          (if truthy (CounselingRequest.message request)
           then CounselingRequest.message request else None)
          (CounselingRequest.student request)
          (getStatusBadge (CounselingRequest.status request))
          (buttons_of request).

Definition render (s : Counselor.state) : t :=
  if Counselor.loading s then Spinner
  else
    Page (Counselor.stats s)
         (if bool_decide (length (Counselor.requests s) = 0%nat)
          then NoCounselingRequests
          else Cards (card_of <$> take 5 (Counselor.requests s))).

Definition clicks (page : t) : list (string * Counselor.action) :=
  match page with
  | Page _ (Cards cards) => c ← cards; (λ act, (key c, act)) <$> buttons c
  | _ => []
  end.

End CounselorView.

(** ** Runs driven from the page *)

(** The clicks the librarian's page accepts in a state. *)
Definition offered (s : Librarian.state) : list (string * Librarian.action) :=
  LibrarianView.clicks (LibrarianView.render s).

(** One click on a button of the page, made while no action is in flight:
    the handler runs to its end, on the state the page was rendered from,
    before anything else is clicked.  (The page does not disable its
    buttons while an action runs; clicks whose actions overlap are not
    described by this relation.) *)
Inductive click (user : option Auth.t)
  : relation (world * Librarian.state) :=
  | click_button issueId act w s :
      (issueId, act) ∈ offered s →
      click user (w, s)
            (snd (Librarian.handleIssueAction user issueId act (w, s))).

(** The status a button is shown on, and the status its action writes. *)
Definition status_before (act : Librarian.action) : string :=
  match act with
  | Librarian.approve => "requested"
  | Librarian.return_ => "issued"
  end.

Definition status_after (act : Librarian.action) : string :=
  match act with
  | Librarian.approve => "issued"
  | Librarian.return_ => "returned"
  end.

(** A copy is out while its issue is issued or overdue. *)
Definition on_loan (r : IssueRow.t) : Prop :=
  IssueRow.status r = "issued" ∨ IssueRow.status r = "overdue".

(** How many rows satisfy a predicate. *)
Definition count_rows {R} (P : R → Prop) `{∀ r, Decision (P r)}
    (rows : list R) : Z :=
  Z.of_nat (length (filter P rows)).

(** The copies of the book [k] that are out. *)
Definition lent (d : Db.t) (k : string) : Z :=
  count_rows (λ r, on_loan r ∧ IssueRow.book_id r = Some k) (Db.book_issues d).

(** Every copy of every book is either available or out. *)
Definition balanced (d : Db.t) : Prop :=
  Forall (λ b, Book.available_copies b + lent d (Book.id b)
               = Book.total_copies b)
         (Db.books d).

(** A dashboard over tables with primary keys, holding a fresh snapshot,
    on a backend that answers every call. *)
Definition steady (st : world * Librarian.state) : Prop :=
  transport (fst st) = []
  ∧ snd st = fetched (store (fst st))
  ∧ NoDup (Book.id <$> Db.books (store (fst st)))
  ∧ NoDup (IssueRow.id <$> Db.book_issues (store (fst st))).

(** The columns of an issue and of a book that no action may touch. *)
Definition same_issue_frame (act : Librarian.action)
    (r r' : IssueRow.t) : Prop :=
  IssueRow.id r' = IssueRow.id r
  ∧ IssueRow.issued_date r' = IssueRow.issued_date r
  ∧ IssueRow.due_date r' = IssueRow.due_date r
  ∧ IssueRow.book_id r' = IssueRow.book_id r
  ∧ IssueRow.student_id r' = IssueRow.student_id r
  ∧ (act = Librarian.approve →
     IssueRow.return_date r' = IssueRow.return_date r)
  ∧ (act = Librarian.return_ →
     IssueRow.issued_by r' = IssueRow.issued_by r).

Definition same_book_frame (b b' : Book.t) : Prop :=
  Book.id b' = Book.id b
  ∧ Book.title b' = Book.title b
  ∧ Book.author b' = Book.author b
  ∧ Book.total_copies b' = Book.total_copies b.

(** What a click does to one stored issue: nothing, or the step its button
    stands for. *)
Definition issue_moved (issueId : string) (act : Librarian.action)
    (r r' : IssueRow.t) : Prop :=
  (IssueRow.id r ≠ issueId ∧ r' = r)
  ∨ (IssueRow.id r = issueId
     ∧ IssueRow.status r = status_before act
     ∧ IssueRow.status r' = status_after act
     ∧ same_issue_frame act r r').

(** One if the proposition holds, zero if not. *)
Definition ind (P : Prop) `{Decision P} : Z := if decide P then 1 else 0.

(** The clicks the counselor's page accepts in a state. *)
Definition offered_requests (s : Counselor.state)
  : list (string * Counselor.action) :=
  CounselorView.clicks (CounselorView.render s).

(** One click on a button of the counselor's page, likewise made while no
    action is in flight. *)
Inductive request_click (user : option Auth.t)
  : relation (world * Counselor.state) :=
  | request_click_button requestId act w s :
      (requestId, act) ∈ offered_requests s →
      request_click user (w, s)
        (snd (Counselor.handleRequestAction user requestId act (w, s))).

Definition request_status_before (act : Counselor.action) : string :=
  match act with
  | Counselor.accept => "pending"
  | Counselor.complete => "accepted"
  end.

Definition request_status_after (act : Counselor.action) : string :=
  match act with
  | Counselor.accept => "accepted"
  | Counselor.complete => "completed"
  end.

(** A signed-in counselor's dashboard over requests with a primary key,
    holding a fresh snapshot, on a backend that answers every call. *)
Definition steady_queue (user : option Auth.t)
    (st : world * Counselor.state) : Prop :=
  truthy (user_id user) = true
  ∧ transport (fst st) = []
  ∧ snd st = fetched_requests user (store (fst st))
  ∧ NoDup (RequestRow.id <$> Db.counseling_requests (store (fst st))).

(** What a click does to one stored request: nothing, or the step its
    button stands for, on a request of this counselor. *)
Definition request_moved (user : option Auth.t) (requestId : string)
    (act : Counselor.action) (now : string) (r r' : RequestRow.t) : Prop :=
  (RequestRow.id r ≠ requestId ∧ r' = r)
  ∨ (RequestRow.id r = requestId
     ∧ RequestRow.counselor_id r = id_of user
     ∧ RequestRow.status r = request_status_before act
     ∧ r' = RequestRow.mk (RequestRow.id r) (RequestRow.reason r)
              (RequestRow.message r) (request_status_after act)
              (RequestRow.requested_at r)
              (match act with
               | Counselor.accept => RequestRow.completed_at r
               | Counselor.complete => Some now
               end)
              (RequestRow.student_id r) (RequestRow.counselor_id r)).

(** How far a request may have come after some clicks. *)
Definition request_progress (r r' : RequestRow.t) : Prop :=
  RequestRow.id r' = RequestRow.id r
  ∧ (RequestRow.status r = "pending" →
     RequestRow.status r' = "pending" ∨ RequestRow.status r' = "accepted"
     ∨ RequestRow.status r' = "completed")
  ∧ (RequestRow.status r = "accepted" →
     RequestRow.status r' = "accepted" ∨ RequestRow.status r' = "completed")
  ∧ (RequestRow.status r ≠ "pending" → RequestRow.status r ≠ "accepted" →
     r' = r).

(** The statuses of the two declared union types. *)
Definition issue_statuses : list string :=
  ["requested"; "issued"; "returned"; "overdue"].

Definition request_statuses : list string :=
  ["pending"; "accepted"; "completed"; "cancelled"].

(** The class every badge starts with. *)
Definition badge_class : string :=
  "inline-flex items-center px-2.5 py-0.5 rounded-full text-xs font-medium border ".

(** The issues that none of the librarian's three status cards counts. *)
Definition uncounted_issue (issue : BookIssue.t) : Prop :=
  BookIssue.status issue ≠ "issued"
  ∧ BookIssue.status issue ≠ "overdue"
  ∧ BookIssue.status issue ≠ "requested".

Definition uncounted_request (request : CounselingRequest.t) : Prop :=
  CounselingRequest.status request ≠ "pending"
  ∧ CounselingRequest.status request ≠ "accepted"
  ∧ CounselingRequest.status request ≠ "completed".

(** ** The administrator's settings *)

Module Admin.

Inductive tab :=
  | school | users | system | security | notifications | appearance.

(** A value of [systemSettings]: a checkbox or a text. *)
Inductive setting :=
  | Flag (checked : bool)
  | Text (value : string).

(** The state of the component; the three settings are objects. *)
Record state := mk_state
  { activeTab : tab;
    schoolInfo : gmap string string;
    systemSettings : gmap string setting;
    notificationSettings : gmap string bool }.

Definition initial : state :=
  mk_state school
    {[ "name" := "SOSE Lajpat Nagar";
       "motto" := "Excellence in Education";
       "address" := "Lajpat Nagar, New Delhi";
       "phone" := "+91-11-12345678";
       "email" := "info@sose.edu.in";
       "website" := "www.sose.edu.in";
       "principalName" := "Dr. Rajesh Kumar";
       "establishedYear" := "1995" ]}
    {[ "maintenanceMode" := Flag false;
       "autoBackup" := Flag true;
       "backupFrequency" := Text "daily";
       "sessionTimeout" := Text "30";
       "maxLoginAttempts" := Text "3";
       "enableLogging" := Flag true ]}
    {[ "emailNotifications" := true;
       "smsNotifications" := false;
       "pushNotifications" := true;
       "adminAlerts" := true;
       "systemAlerts" := true;
       "userRegistrationAlerts" := true ]}.

Definition setActiveTab (v : tab) : M state () :=
  set_state (λ s, mk_state v (schoolInfo s) (systemSettings s)
                           (notificationSettings s)).

Definition setSchoolInfo (v : gmap string string) : M state () :=
  set_state (λ s, mk_state (activeTab s) v (systemSettings s)
                           (notificationSettings s)).

Definition setSystemSettings (v : gmap string setting) : M state () :=
  set_state (λ s, mk_state (activeTab s) (schoolInfo s) v
                           (notificationSettings s)).

Definition setNotificationSettings (v : gmap string bool) : M state () :=
  set_state (λ s, mk_state (activeTab s) (schoolInfo s) (systemSettings s) v).

Definition handleSchoolInfoSave : M state () :=
  alert "School information updated successfully!".

Definition handleSystemSettingsSave : M state () :=
  alert "System settings updated successfully!".

Definition handleNotificationSettingsSave : M state () :=
  alert "Notification settings updated successfully!".

Definition handleBackupDownload : M state () :=
  alert "Backup download started. You will receive an email when ready.".

Definition handleDataImport : M state () :=
  alert "Data import feature would be implemented here.".

(** The inputs of the three forms, by the property each one writes. *)
Inductive school_field :=
  | name | motto | address | phone | email | website | principalName
  | establishedYear.

Definition school_key (f : school_field) : string :=
  match f with
  | name => "name"
  | motto => "motto"
  | address => "address"
  | phone => "phone"
  | email => "email"
  | website => "website"
  | principalName => "principalName"
  | establishedYear => "establishedYear"
  end.

Inductive system_checkbox := maintenanceMode | autoBackup.

Definition system_checkbox_key (f : system_checkbox) : string :=
  match f with
  | maintenanceMode => "maintenanceMode"
  | autoBackup => "autoBackup"
  end.

Inductive system_input := sessionTimeout | maxLoginAttempts | backupFrequency.

Definition system_input_key (f : system_input) : string :=
  match f with
  | sessionTimeout => "sessionTimeout"
  | maxLoginAttempts => "maxLoginAttempts"
  | backupFrequency => "backupFrequency"
  end.

Inductive notification_checkbox :=
  | emailNotifications | smsNotifications | pushNotifications
  | adminAlerts | systemAlerts | userRegistrationAlerts.

Definition notification_key (f : notification_checkbox) : string :=
  match f with
  | emailNotifications => "emailNotifications"
  | smsNotifications => "smsNotifications"
  | pushNotifications => "pushNotifications"
  | adminAlerts => "adminAlerts"
  | systemAlerts => "systemAlerts"
  | userRegistrationAlerts => "userRegistrationAlerts"
  end.

(** What the user can do on the page. *)
Inductive event :=
  | ClickTab (v : tab)
  | ChangeSchoolInfo (f : school_field) (value : string)
  | ChangeSystemCheckbox (f : system_checkbox) (checked : bool)
  | ChangeSystemInput (f : system_input) (value : string)
  | ChangeNotification (f : notification_checkbox) (checked : bool)
  | ClickSaveSchoolInfo
  | ClickSaveSystemSettings
  | ClickSaveNotificationSettings
  | ClickDownloadBackup
  | ClickImportData.

(** The handler bound to each of them; an [onChange] spreads the object it
    read and overwrites one property. *)
Definition handle (ev : event) : M state () :=
  match ev with
  | ClickTab v => setActiveTab v
  | ChangeSchoolInfo f value =>
      s ← get_state;
      setSchoolInfo (<[school_key f := value]> (schoolInfo s))
  | ChangeSystemCheckbox f checked =>
      s ← get_state;
      setSystemSettings
        (<[system_checkbox_key f := Flag checked]> (systemSettings s))
  | ChangeSystemInput f value =>
      s ← get_state;
      setSystemSettings
        (<[system_input_key f := Text value]> (systemSettings s))
  | ChangeNotification f checked =>
      s ← get_state;
      setNotificationSettings
        (<[notification_key f := checked]> (notificationSettings s))
  | ClickSaveSchoolInfo => handleSchoolInfoSave
  | ClickSaveSystemSettings => handleSystemSettingsSave
  | ClickSaveNotificationSettings => handleNotificationSettingsSave
  | ClickDownloadBackup => handleBackupDownload
  | ClickImportData => handleDataImport
  end.

(** The tab whose panel holds the control of an event; the tab bar is
    always there. *)
Definition panel (ev : event) : option tab :=
  match ev with
  | ClickTab _ => None
  | ChangeSchoolInfo _ _ | ClickSaveSchoolInfo => Some school
  | ChangeSystemCheckbox _ _ | ChangeSystemInput _ _
  | ClickSaveSystemSettings | ClickDownloadBackup | ClickImportData =>
      Some system
  | ChangeNotification _ _ | ClickSaveNotificationSettings =>
      Some notifications
  end.

(** Events, one after the other. *)
Fixpoint handleAll (evs : list event) : M state () :=
  match evs with
  | [] => mret ()
  | ev :: rest => handle ev;; handleAll rest
  end.

(** The alert of a button, if the event is one. *)
Definition message (ev : event) : option string :=
  match ev with
  | ClickSaveSchoolInfo => Some "School information updated successfully!"
  | ClickSaveSystemSettings => Some "System settings updated successfully!"
  | ClickSaveNotificationSettings =>
      Some "Notification settings updated successfully!"
  | ClickDownloadBackup =>
      Some "Backup download started. You will receive an email when ready."
  | ClickImportData => Some "Data import feature would be implemented here."
  | _ => None
  end.

(** The last value typed into a field of the school form, [shown] if none
    was. *)
Definition last_typed (f : school_field) (shown : option string)
    (evs : list event) : option string :=
  foldl (λ acc ev, match ev with
                   | ChangeSchoolInfo g value =>
                       if bool_decide (school_key g = school_key f)
                       then Some value else acc
                   | _ => acc
                   end) shown evs.

End Admin.

(** The state an event of the administrator's page leaves, and the state a
    run of them leaves. *)
Definition settled (ev : Admin.event) (s : Admin.state) : Admin.state :=
  match ev with
  | Admin.ClickTab v =>
      Admin.mk_state v (Admin.schoolInfo s) (Admin.systemSettings s)
                     (Admin.notificationSettings s)
  | Admin.ChangeSchoolInfo f value =>
      Admin.mk_state (Admin.activeTab s)
        (<[Admin.school_key f := value]> (Admin.schoolInfo s))
        (Admin.systemSettings s) (Admin.notificationSettings s)
  | Admin.ChangeSystemCheckbox f checked =>
      Admin.mk_state (Admin.activeTab s) (Admin.schoolInfo s)
        (<[Admin.system_checkbox_key f := Admin.Flag checked]>
           (Admin.systemSettings s))
        (Admin.notificationSettings s)
  | Admin.ChangeSystemInput f value =>
      Admin.mk_state (Admin.activeTab s) (Admin.schoolInfo s)
        (<[Admin.system_input_key f := Admin.Text value]>
           (Admin.systemSettings s))
        (Admin.notificationSettings s)
  | Admin.ChangeNotification f checked =>
      Admin.mk_state (Admin.activeTab s) (Admin.schoolInfo s)
        (Admin.systemSettings s)
        (<[Admin.notification_key f := checked]>
           (Admin.notificationSettings s))
  | _ => s
  end.

Definition settled_all (evs : list Admin.event) (s : Admin.state)
  : Admin.state :=
  foldl (λ s ev, settled ev s) s evs.

(** The events that are clicks on one of the five buttons. *)
Definition is_button (ev : Admin.event) : Prop := is_Some (Admin.message ev).

(** A library whose backend refuses the inventory write of the first
    action. *)
Definition inventory_failing_world : world :=
  mk_world
    (Db.mk [Book.mk "b1" "Dune" "F. Herbert" 2 2]
           [IssueRow.mk "i1" "requested" "2024-04-28" "2024-05-12" None None
                        (Some "b1") (Some "u7")]
           []
           [User.mk "u7" (Student.mk "Asha" "S-007" "10-B")])
    [None; None; None; Some "row locked"] "2024-05-01T10:00:00.000Z" [].

Definition inventory_failing_book : Book.t :=
  Book.mk "b1" "Dune" "F. Herbert" 2 2.

Definition inventory_failing_issue : BookIssue.t :=
  BookIssue.mk "i1" "requested" "2024-04-28" "2024-05-12" None
               (Some inventory_failing_book)
               (Some (Student.mk "Asha" "S-007" "10-B")).

(** A library with two copies of its only book, one lent out and one
    requested. *)
Definition balanced_world : world :=
  mk_world
    (Db.mk [Book.mk "b1" "Dune" "F. Herbert" 2 1]
           [IssueRow.mk "i1" "issued" "2024-04-20" "2024-05-04" None
                        (Some "lib1") (Some "b1") (Some "u7");
            IssueRow.mk "i2" "requested" "2024-04-28" "2024-05-12" None None
                        (Some "b1") (Some "u8")]
           []
           [User.mk "u7" (Student.mk "Asha" "S-007" "10-B");
            User.mk "u8" (Student.mk "Ravi" "S-008" "9-A")])
    [] "2024-05-01T10:00:00.000Z" [].

Definition balanced_start : world * Librarian.state :=
  (fst (Librarian.mount balanced_world), snd (Librarian.mount balanced_world)).

Definition counselor_start : world * Counselor.state :=
  (fst counselor_mounted, snd counselor_mounted).

(** The cards describe the rows held. *)
Definition cards_in_step (s : Librarian.state) : Prop :=
  Librarian.stats s
  = Librarian.derive_stats (Librarian.books s) (Librarian.bookIssues s).

Definition request_cards_in_step (s : Counselor.state) : Prop :=
  Counselor.stats s = Counselor.derive_stats (Counselor.requests s).

(** The characters of a string. *)
Fixpoint chars (s : string) : list ascii :=
  match s with
  | EmptyString => []
  | String c rest => c :: chars rest
  end.

(** ** Ranges in which the counts are exact *)

(** The sum of the magnitudes of a column: it bounds every partial sum of
    the column, in whatever order the rows come. *)
Definition magnitude (f : Book.t → Z) (l : list Book.t) : Z :=
  total_of (λ b, Z.abs (f b)) l.

(** Books whose two columns are summed without rounding. *)
Definition exact_sums (l : list Book.t) : Prop :=
  magnitude Book.total_copies l ≤ 2 ^ 53
  ∧ magnitude Book.available_copies l ≤ 2 ^ 53.

(** The stored and the held counts lie within [r] of zero. *)
Definition within (r : Z) (st : world * Librarian.state) : Prop :=
  Forall (λ b, Z.abs (Book.available_copies b) ≤ r)
         (Db.books (store (fst st)))
  ∧ Forall (λ b, Z.abs (Book.available_copies b) ≤ r)
           (Librarian.books (snd st)).

(** Tables in which every book's total, give or take one copy per stored
    issue, is a safe integer. *)
Definition roomy (d : Db.t) : Prop :=
  Forall (λ b, Z.abs (Book.total_copies b)
               + Z.of_nat (length (Db.book_issues d)) < 2 ^ 53)
         (Db.books d).

(** Three books, one of them with 2^53 copies, and the numbers at which
    the two operations are compared with the IEEE 754 specification. *)
Definition huge_books : list Book.t :=
  [Book.mk "b1" "Dune" "F. Herbert" (2 ^ 53) 0;
   Book.mk "b2" "Emma" "J. Austen" 1 0;
   Book.mk "b3" "Ulysses" "J. Joyce" 1 0].

Definition sample_numbers : list Z :=
  [0; 1; -1; 2; 3; 2 ^ 52; 2 ^ 53 - 1; 2 ^ 53; 2 ^ 53 + 2; 2 ^ 53 + 4;
   2 ^ 54 - 2; 2 ^ 54; 2 ^ 54 + 4; - 2 ^ 53; - 2 ^ 53 - 2; 2 ^ 60;
   3 * 2 ^ 60; 2 ^ 100].

(** ** Rows with a declared status *)

(** The rows that a page shows all carry a status of the declared union
    type, for which the badge tables have an entry.  (For any other status
    the icon looked up is [undefined], an element type that React refuses
    to render: the statements about what a page shows are made for rows
    with a declared status.) *)
Definition covered (s : Librarian.state) : Prop :=
  Forall (λ issue, BookIssue.status issue ∈ issue_statuses)
         (take 10 (Librarian.bookIssues s)).

Definition covered_requests (s : Counselor.state) : Prop :=
  Forall (λ request, CounselingRequest.status request ∈ request_statuses)
         (take 5 (Counselor.requests s)).

(** * Properties *)

(** ** Numbers *)

Section Numbers.

Lemma round64_exact (z : Z) : - 2 ^ 53 ≤ z ≤ 2 ^ 53 → round64 z = z.
Proof.
  intros Hz. unfold round64.
  destruct (Z.leb_spec (Z.log2 (Z.abs z) - 52) 0) as [|Hlog]; [done|].
  assert (Ha : Z.abs z = 2 ^ 53).
  { destruct (Z.lt_ge_cases (Z.abs z) (2 ^ 53)) as [Hlt|]; [|lia].
    destruct (decide (Z.abs z = 0)) as [E|].
    - rewrite E in Hlog. simpl in Hlog. lia.
    - apply Z.log2_lt_pow2 in Hlt; lia. }
  rewrite Ha. change (Z.log2 (2 ^ 53)) with 53.
  destruct (Z.abs_eq_or_opp z) as [E|E]; rewrite E in Ha.
  - by subst z.
  - assert (z = - 2 ^ 53) as -> by lia. done.
Qed.

Lemma add_number_exact (a b : Z) :
  - 2 ^ 53 ≤ a + b ≤ 2 ^ 53 → add_number a b = a + b.
Proof. apply round64_exact. Qed.

Lemma sub_number_exact (a b : Z) :
  - 2 ^ 53 ≤ a - b ≤ 2 ^ 53 → sub_number a b = a - b.
Proof. apply round64_exact. Qed.

Lemma add_one_safe (n : Z) : safe_integer n → add_number n 1 = n + 1.
Proof. intros [??]. apply add_number_exact. lia. Qed.

Lemma sub_one_safe (n : Z) : safe_integer n → sub_number n 1 = n - 1.
Proof. intros [??]. apply sub_number_exact. lia. Qed.

(** The two operations give what IEEE 754 addition and subtraction give,
    at every pair of the sample numbers: exact sums, sums that are rounded
    down, up, and ties. *)
Lemma number_operations_follow_binary64 :
  forallb (λ a,
    forallb (λ b, (binary64_add a b =? add_number a b)
                  && (binary64_sub a b =? sub_number a b))
            sample_numbers)
    sample_numbers = true.
Proof. by vm_compute. Qed.

(** Beyond 2^53 one more copy is lost, or counts for two. *)
Lemma add_number_rounds :
  add_number (2 ^ 53) 1 = 2 ^ 53
  ∧ add_number (2 ^ 53 + 2) 1 = 2 ^ 53 + 4
  ∧ sub_number (add_number (2 ^ 53) 1) 1 = 2 ^ 53 - 1.
Proof. by vm_compute. Qed.

End Numbers.

(** ** The derived counts and the order of the rows *)

Section Reducers.

Lemma total_of_permutation (f : Book.t → Z) (l l' : list Book.t) :
  l ≡ₚ l' → total_of f l = total_of f l'.
Proof.
  induction 1 as [|x l l' _ IH|x y l|l l' l'' _ IH1 _ IH2]; simpl.
  - done.
  - by rewrite IH.
  - lia.
  - by rewrite IH1.
Qed.

Lemma magnitude_nonneg (f : Book.t → Z) (l : list Book.t) :
  0 ≤ magnitude f l.
Proof. unfold magnitude. induction l as [|b l IH]; simpl; lia. Qed.

(** A column whose magnitudes add up to at most 2^53 is summed exactly. *)
Lemma foldl_add_number_exact (f : Book.t → Z) (l : list Book.t) (a : Z) :
  Z.abs a + magnitude f l ≤ 2 ^ 53 →
  foldl (λ sum book, add_number sum (f book)) a l = a + total_of f l.
Proof.
  revert a. induction l as [|b l IH]; intros a Ha.
  - simpl. lia.
  - pose proof (magnitude_nonneg f l) as Hl.
    unfold magnitude, total_of in *. cbn [foldl foldr] in *.
    rewrite add_number_exact by lia.
    rewrite IH by lia. lia.
Qed.

Lemma issue_count_by_status (status : string) (l : list BookIssue.t) :
  Librarian.count_status status l
  = length (filter (λ x, x = status) (BookIssue.status <$> l)).
Proof.
  unfold Librarian.count_status.
  induction l as [|i l IH]; [done|].
  rewrite fmap_cons, !filter_cons.
  destruct (decide (BookIssue.status i = status)); simpl; by rewrite IH.
Qed.

Lemma issue_count_permutation (status : string) (l l' : list BookIssue.t) :
  l ≡ₚ l' → Librarian.count_status status l = Librarian.count_status status l'.
Proof. intros H. unfold Librarian.count_status. by rewrite H. Qed.

Lemma request_count_permutation (status : string)
    (l l' : list CounselingRequest.t) :
  l ≡ₚ l' → Counselor.count_status status l = Counselor.count_status status l'.
Proof. intros H. unfold Counselor.count_status. by rewrite H. Qed.

End Reducers.

(** C7, as stated, fails for the two sums: they are left-to-right sums of
    numbers, and number addition rounds beyond 2^53.  Three books with
    2^53, 1 and 1 copies give totalBooks = 2^53 in that order (each single
    copy is rounded away) and totalBooks = 2^53 + 2 in the reverse order. *)
Lemma stats_order_counterexample :
  huge_books ≡ₚ reverse huge_books
  ∧ Librarian.totalBooks (Librarian.derive_stats huge_books []) = 2 ^ 53
  ∧ Librarian.totalBooks (Librarian.derive_stats (reverse huge_books) [])
    = 2 ^ 53 + 2
  ∧ Librarian.derive_stats huge_books []
    ≠ Librarian.derive_stats (reverse huge_books) [].
Proof.
  split; [symmetry; apply reverse_Permutation|].
  split; [by vm_compute|]. split; [by vm_compute|].
  intros H. apply (f_equal Librarian.totalBooks) in H.
  vm_compute in H. discriminate.
Qed.

(** C7, amended: the statistics are functions of the fetched rows.  The
    counts of rows by status (issuedBooks, overdueBooks, pendingRequests
    and the four counts of counseling requests) are the same for any
    reordering of the rows; in particular five issues of which three are
    issued, one requested and one overdue, in any order, give
    issuedBooks = 3, pendingRequests = 1 and overdueBooks = 1.  The two
    sums totalBooks and availableBooks are the same for any reordering
    when the magnitudes of each column add up to at most 2^53: they are
    then the exact sums of the columns. *)
Theorem stats_order_independent
    (booksData booksData' : list Book.t)
    (issuesData issuesData' : list BookIssue.t)
    (requestsData requestsData' : list CounselingRequest.t) :
  booksData ≡ₚ booksData' →
  issuesData ≡ₚ issuesData' →
  requestsData ≡ₚ requestsData' →
  let st := Librarian.derive_stats booksData issuesData in
  let st' := Librarian.derive_stats booksData' issuesData' in
  (Librarian.issuedBooks st = Librarian.issuedBooks st'
   ∧ Librarian.overdueBooks st = Librarian.overdueBooks st'
   ∧ Librarian.pendingRequests st = Librarian.pendingRequests st')
  ∧ Counselor.derive_stats requestsData = Counselor.derive_stats requestsData'
  ∧ (exact_sums booksData →
     st = st'
     ∧ Librarian.totalBooks st = total_of Book.total_copies booksData
     ∧ Librarian.availableBooks st
       = total_of Book.available_copies booksData)
  ∧ (BookIssue.status <$> issuesData
       ≡ₚ ["issued"; "issued"; "issued"; "requested"; "overdue"] →
     Librarian.issuedBooks st' = 3%nat
     ∧ Librarian.pendingRequests st' = 1%nat
     ∧ Librarian.overdueBooks st' = 1%nat).
Proof.
  intros Hb Hi Hr. cbv zeta. split; [|split; [|split]].
  - cbn [Librarian.derive_stats Librarian.issuedBooks Librarian.overdueBooks
         Librarian.pendingRequests].
    by rewrite !(issue_count_permutation _ _ _ Hi).
  - unfold Counselor.derive_stats.
    rewrite !(request_count_permutation _ _ _ Hr).
    by rewrite Hr.
  - intros [Ht Ha].
    assert (Ht' : magnitude Book.total_copies booksData' ≤ 2 ^ 53).
    { unfold magnitude in *. by rewrite <- (total_of_permutation _ _ _ Hb). }
    assert (Ha' : magnitude Book.available_copies booksData' ≤ 2 ^ 53).
    { unfold magnitude in *. by rewrite <- (total_of_permutation _ _ _ Hb). }
    unfold Librarian.derive_stats.
    cbn [Librarian.totalBooks Librarian.availableBooks].
    rewrite !foldl_add_number_exact by (simpl; lia).
    rewrite <- !(total_of_permutation _ _ _ Hb).
    rewrite !(issue_count_permutation _ _ _ Hi).
    repeat split; lia.
  - intros Hs.
    cbn [Librarian.derive_stats Librarian.issuedBooks Librarian.overdueBooks
         Librarian.pendingRequests].
    rewrite <- !(issue_count_permutation _ _ _ Hi).
    rewrite !issue_count_by_status, !Hs. done.
Qed.

Lemma stats_order_independent_witness :
  Librarian.derive_stats sample_books sample_issues
    = Librarian.derive_stats (reverse sample_books) (reverse sample_issues)
  ∧ Librarian.totalBooks (Librarian.derive_stats sample_books sample_issues)
    = 5
  ∧ Counselor.derive_stats sample_requests
    = Counselor.derive_stats (reverse sample_requests)
  ∧ (let st := Librarian.derive_stats (reverse sample_books)
                 (reverse sample_issues) in
     Librarian.issuedBooks st = 3%nat
     ∧ Librarian.pendingRequests st = 1%nat
     ∧ Librarian.overdueBooks st = 1%nat).
Proof.
  destruct (stats_order_independent
              sample_books (reverse sample_books)
              sample_issues (reverse sample_issues)
              sample_requests (reverse sample_requests))
    as (_ & Hc & Hsums & Hex).
  - vm_compute. apply perm_swap.
  - symmetry. apply reverse_Permutation.
  - vm_compute. apply perm_swap.
  - destruct Hsums as (Hl & Ht & _).
    { split; vm_compute; discriminate. }
    split; [exact Hl|]. split; [exact Ht|]. split; [exact Hc|].
    apply Hex. apply (bool_decide_unpack _). vm_compute. exact I.
Defined.

(** ** What a load does *)

Lemma loadLibraryData_run (w : world) (s : Librarian.state) :
  Librarian.loadLibraryData (w, s)
  = (Normal (),
     match first_error w 2 with
     | None => (after_calls w 2 library_queries, fetched (store w))
     | Some e =>
         (after_calls w 2
            (library_queries ++ [ConsoleError "Error loading library data:" e]),
          stopped s)
     end).
Proof.
  destruct w as [d fates t tr]. unfold first_error, after_calls. simpl.
  destruct fates as [|[e|] [|[e'|] rest]]; simpl.
  all: unfold Librarian.loadLibraryData, try_catch_finally, try_catch.
  all: simpl; by rewrite <- ?(assoc_L (++)).
Qed.

(** ** What an action on a book issue does *)

Lemma from_update_run {S} table p key (w : world) (s : S) :
  from_update table p key (w, s)
  = (Normal (mk_response (match fate w 0 with
                          | Some _ => None
                          | None => Some ()
                          end) (fate w 0)),
     (written table p key w, s)).
Proof.
  destruct w as [d fates t tr]. unfold written, fate.
  by destruct fates as [|[e|] rest].
Qed.

Lemma emit_run {S} (ev : event) (w : world) (s : S) :
  emit ev (w, s) = (Normal (), (after_calls w 0 [ev], s)).
Proof. by destruct w. Qed.

Lemma after_calls_0_0 (w : world) (evs evs' : list event) :
  after_calls (after_calls w 0 evs) 0 evs' = after_calls w 0 (evs ++ evs').
Proof. destruct w. unfold after_calls. simpl. by rewrite (assoc_L (++)). Qed.

Lemma bind_run {S A B} (m : M S A) (k : A → M S B) st :
  (m ≫= k) st
  = match m st with
    | (Normal a, st') => k a st'
    | (Thrown e, st') => (Thrown e, st')
    end.
Proof. done. Qed.

Lemma handleIssueAction_run user issueId act (w : world) (s : Librarian.state) :
  Librarian.handleIssueAction user issueId act (w, s)
  = (Normal (),
     let w1 := written "book_issues" (issue_payload user act w) issueId w in
     match fate w 0 with
     | Some e => (after_calls w1 0 (failure_events act e), s)
     | None =>
         let w2 :=
           match inventory_write act issueId s with
           | Some (q, k) => written "books" q k w1
           | None => w1
           end in
         said (success_text act) (snd (Librarian.loadLibraryData (w2, s)))
     end).
Proof.
  unfold Librarian.handleIssueAction, try_catch.
  destruct act.
  all: rewrite bind_run; try rewrite bind_run; unfold toISOString;
    unfold mret, M_ret; cbv beta iota.
  all: rewrite bind_run, from_update_run; cbv beta iota.
  all: destruct (fate w 0) as [e|] eqn:Hfate.
  all: rewrite bind_run; unfold throw_if_error, throw, mret, M_ret;
    cbn [error]; cbv beta iota.
  all: unfold console_error, alert.
  1,3: by rewrite bind_run, !emit_run, after_calls_0_0.
  all: rewrite bind_run; unfold get_state; cbn [snd]; cbv beta iota.
  all: rewrite bind_run.
  all: unfold inventory_write.
  all: destruct (find_by BookIssue.id issueId (Librarian.bookIssues s)
                 ≫= BookIssue.book) as [book|]; cbn [mbind option_bind].
  1,3: rewrite bind_run, from_update_run; cbv beta iota.
  all: rewrite bind_run, !loadLibraryData_run; cbv beta iota.
  all: destruct (first_error _ 2); by rewrite emit_run.
Qed.

(** ** What the counselor's load and actions do *)

Lemma loadCounselingRequests_run user (w : world) (s : Counselor.state) :
  Counselor.loadCounselingRequests user (w, s)
  = (Normal (),
     if truthy (user_id user) then
       match fate w 0 with
       | None =>
           (after_calls w 1 [requests_query user],
            fetched_requests user (store w))
       | Some e =>
           (after_calls w 1
              [requests_query user;
               ConsoleError "Error loading counseling requests:" e],
            stopped_requests s)
       end
     else (w, s)).
Proof.
  unfold Counselor.loadCounselingRequests.
  destruct (truthy (user_id user)); [|done].
  destruct w as [d fates t tr]. unfold fate, after_calls.
  destruct fates as [|[e|] rest]; simpl.
  all: unfold try_catch_finally, try_catch; simpl.
  all: by rewrite <- ?(assoc_L (++)).
Qed.

Lemma handleRequestAction_run user requestId act
    (w : world) (s : Counselor.state) :
  Counselor.handleRequestAction user requestId act (w, s)
  = (Normal (),
     let w1 :=
       written "counseling_requests" (request_payload act w) requestId w in
     match fate w 0 with
     | Some e => (after_calls w1 0 (request_failure_events act e), s)
     | None =>
         let st := snd (Counselor.loadCounselingRequests user (w1, s)) in
         (after_calls (fst st) 0 [Alert (request_success_text act)], snd st)
     end).
Proof.
  unfold Counselor.handleRequestAction, try_catch.
  destruct act.
  all: rewrite bind_run; try rewrite bind_run; unfold toISOString;
    unfold mret, M_ret; cbv beta iota.
  all: rewrite bind_run, from_update_run; cbv beta iota.
  all: destruct (fate w 0) as [e|] eqn:Hfate.
  all: rewrite bind_run; unfold throw_if_error, throw, mret, M_ret;
    cbn [error]; cbv beta iota.
  all: unfold console_error, alert.
  1,3: by rewrite bind_run, !emit_run, after_calls_0_0.
  all: rewrite bind_run, !loadCounselingRequests_run; cbv beta iota.
  all: cbn [request_payload].
  all: destruct (truthy (user_id user));
    [destruct (fate (written _ _ _ _) 0)|]; by rewrite emit_run.
Qed.

(** ** The counselor's load without a user *)

(** C10: when the counselor's loader runs while the user's id is absent (or
    empty), it issues no query and returns at once; the requests, the
    statistics, the loading flag and the whole environment are as before. *)
Theorem load_requests_without_user user (w : world) (s : Counselor.state) :
  truthy (user_id user) = false →
  Counselor.loadCounselingRequests user (w, s) = (Normal (), (w, s)).
Proof. intros H. by rewrite loadCounselingRequests_run, H. Qed.

Lemma load_requests_without_user_witness :
  truthy (user_id None) = false
  ∧ ∀ w s, Counselor.loadCounselingRequests None (w, s) = (Normal (), (w, s)).
Proof.
  split; [reflexivity|].
  intros w s. apply (load_requests_without_user None w s). reflexivity.
Defined.

(** ** Actions on a counseling request *)

Lemma writes_app (tr tr' : list event) :
  writes (tr ++ tr') = writes tr ++ writes tr'.
Proof. apply omap_app. Qed.

Lemma alerts_app (tr tr' : list event) :
  alerts (tr ++ tr') = alerts tr ++ alerts tr'.
Proof. apply omap_app. Qed.

Lemma update_eq_Forall2 {R} (key_of : R → string) (patch : R → R)
    (key : string) (rel : R → R → Prop) (rows : list R) :
  (∀ r, rel r r) → (∀ r, rel r (patch r)) →
  Forall2 rel rows (update_eq key_of patch key rows).
Proof.
  intros Hrefl Hpatch. unfold update_eq.
  induction rows as [|r rows IH]; simpl; constructor; [|done].
  by destruct (bool_decide (key_of r = key)).
Qed.

Lemma update_eq_hit {R} (key_of : R → string) (patch : R → R)
    (key : string) (rows : list R) (r : R) :
  r ∈ rows → key_of r = key → patch r ∈ update_eq key_of patch key rows.
Proof.
  intros Hin Hkey. unfold update_eq.
  apply list_elem_of_fmap. exists r. by rewrite bool_decide_true.
Qed.

(** C9: an accept or complete action issues exactly one partial-row update,
    on the request's row, whose payload holds [status] alone for accept and
    [status] and [completed_at] for complete; whatever the backend answers,
    every stored request keeps its id, reason, message, requested_at,
    student and counselor references, and accept keeps completed_at too. *)
Theorem request_action_frame user requestId act
    (w : world) (s : Counselor.state) :
  let w' := fst (snd (Counselor.handleRequestAction user requestId act (w, s))) in
  let updateData : payload :=
    match act with
    | Counselor.accept => {[ "status" := VStr "accepted" ]}
    | Counselor.complete =>
        <["completed_at" := VStr (clock w)]> {[ "status" := VStr "completed" ]}
    end in
  writes (trace w')
    = writes (trace w) ++ [("counseling_requests", updateData, requestId)]
  ∧ dom updateData
    = match act with
      | Counselor.accept => {[ "status" ]}
      | Counselor.complete => {[ "status"; "completed_at" ]}
      end
  ∧ Forall2 (same_request_frame act)
      (Db.counseling_requests (store w)) (Db.counseling_requests (store w')).
Proof.
  rewrite handleRequestAction_run. cbn zeta. split; [|split].
  - rewrite loadCounselingRequests_run.
    destruct (fate w 0) as [e|]; cbn [fst snd].
    + destruct act; cbn [after_calls written trace request_payload];
        rewrite !writes_app; cbn [request_failure_events writes omap list_omap];
        by rewrite <- (assoc_L (++)).
    + destruct (truthy (user_id user));
        [destruct (fate (written _ _ _ _) 0)|].
      all: destruct act; cbn [fst snd after_calls written trace request_payload];
        rewrite !writes_app; cbn [requests_query writes omap list_omap];
        by rewrite <- !(assoc_L (++)).
  - destruct act.
    + by rewrite dom_singleton_L.
    + rewrite dom_insert_L, dom_singleton_L. set_solver.
  - rewrite loadCounselingRequests_run.
    assert (Hfr : ∀ r, same_request_frame act r r) by (by intros r; repeat split).
    assert (Hnone : Forall2 (same_request_frame act)
                      (Db.counseling_requests (store w))
                      (Db.counseling_requests (store w))).
    { apply Forall2_same_length_lookup_2; [done|].
      intros i x y Hx Hy. assert (x = y) as -> by congruence. apply Hfr. }
    destruct (fate w 0) as [e|] eqn:Hfate; cbn [fst snd].
    + cbn [after_calls written store]. by rewrite Hfate.
    + assert (Hupd : Forall2 (same_request_frame act)
                (Db.counseling_requests (store w))
                (Db.counseling_requests
                   (store (written "counseling_requests"
                             (request_payload act w) requestId w)))).
      { cbn [written store]. rewrite Hfate.
        unfold apply_update. simpl.
        apply update_eq_Forall2; [done|].
        intros r. destruct act; repeat split; done. }
      destruct (truthy (user_id user));
        [destruct (fate (written _ _ _ _) 0)|]; exact Hupd.
Qed.

(** C4, as stated, fails: completing a request that is still pending is not
    rejected; the stored request becomes completed, gets a completion
    timestamp, and the user is told that the action succeeded. *)
Lemma complete_on_pending_counterexample :
  let st := snd (Counselor.handleRequestAction counselor_user "r1"
                   Counselor.complete counselor_mounted) in
  CounselingRequest.status <$> Counselor.requests (snd counselor_mounted)
    = ["pending"]
  ∧ RequestRow.status <$> Db.counseling_requests (store (fst st))
    = ["completed"]
  ∧ RequestRow.completed_at <$> Db.counseling_requests (store (fst st))
    = [Some "2024-05-01T10:00:00.000Z"]
  ∧ alerts (trace (fst st)) = ["Request completeed successfully!"].
Proof. vm_compute. done. Qed.

(** C4, amended: accept and complete do not look at the request's current
    status.  Whenever the backend accepts the status write, a stored request
    with the given id, whatever its status, becomes accepted (for accept)
    or completed with the clock's reading as completion timestamp (for
    complete), and the user is told that the action succeeded. *)
Theorem request_action_unguarded user requestId act
    (w : world) (s : Counselor.state) (r : RequestRow.t) :
  fate w 0 = None →
  r ∈ Db.counseling_requests (store w) →
  RequestRow.id r = requestId →
  let w' := fst (snd (Counselor.handleRequestAction user requestId act (w, s))) in
  (∃ r', r' ∈ Db.counseling_requests (store w')
         ∧ RequestRow.id r' = requestId
         ∧ RequestRow.status r'
           = match act with
             | Counselor.accept => "accepted"
             | Counselor.complete => "completed"
             end
         ∧ (act = Counselor.complete →
            RequestRow.completed_at r' = Some (clock w)))
  ∧ alerts (trace w')
    = alerts (trace w)
      ++ [match act with
          | Counselor.accept => "Request accepted successfully!"
          | Counselor.complete => "Request completeed successfully!"
          end].
Proof.
  intros Hfate Hin Hid.
  rewrite handleRequestAction_run. cbn zeta.
  rewrite Hfate, loadCounselingRequests_run. split.
  - exists (patch_request (request_payload act w) r).
    split; [|by destruct act].
    assert (Hst : Db.counseling_requests
                    (store (written "counseling_requests"
                              (request_payload act w) requestId w))
                  = update_eq RequestRow.id
                      (patch_request (request_payload act w)) requestId
                      (Db.counseling_requests (store w))).
    { cbn [written store]. by rewrite Hfate. }
    destruct (truthy (user_id user));
      [destruct (fate (written _ _ _ _) 0)|];
      cbn [fst snd after_calls store]; rewrite Hst;
      by apply update_eq_hit.
  - destruct (truthy (user_id user));
      [destruct (fate (written _ _ _ _) 0)|].
    all: destruct act; cbn [fst snd after_calls written trace request_payload];
      rewrite !alerts_app;
      cbn [requests_query request_success_text alerts omap list_omap];
      by rewrite ?(right_id_L [] (++)).
Qed.

Lemma request_action_unguarded_witness :
  let w' := fst (snd (Counselor.handleRequestAction counselor_user "r1"
                        Counselor.complete counselor_mounted)) in
  (∃ r', r' ∈ Db.counseling_requests (store w')
         ∧ RequestRow.id r' = "r1"
         ∧ RequestRow.status r' = "completed"
         ∧ (Counselor.complete = Counselor.complete →
            RequestRow.completed_at r'
            = Some (clock (fst counselor_mounted))))
  ∧ alerts (trace w')
    = alerts (trace (fst counselor_mounted))
      ++ ["Request completeed successfully!"].
Proof.
  apply (request_action_unguarded counselor_user "r1" Counselor.complete
           (fst counselor_mounted) (snd counselor_mounted) pending_request).
  - reflexivity.
  - vm_compute. apply list_elem_of_here.
  - reflexivity.
Defined.

(** ** Actions on a book issue *)

Lemma fate_written table p key (w : world) (n : nat) :
  fate (written table p key w) n = fate w (S n).
Proof.
  destruct w as [d fates t tr]. unfold fate. simpl.
  destruct fates as [|f fates]; simpl; [done|by rewrite drop_0].
Qed.

Lemma load_keeps_store (w : world) (s : Librarian.state) :
  store (fst (snd (Librarian.loadLibraryData (w, s)))) = store w.
Proof. rewrite loadLibraryData_run. simpl. by destruct (first_error w 2). Qed.

Lemma load_writes_nothing (w : world) (s : Librarian.state) :
  writes (trace (fst (snd (Librarian.loadLibraryData (w, s)))))
  = writes (trace w).
Proof.
  rewrite loadLibraryData_run. simpl.
  destruct (first_error w 2); simpl; rewrite writes_app; simpl;
    by rewrite (right_id_L [] (++)).
Qed.

Lemma load_alerts_nothing (w : world) (s : Librarian.state) :
  alerts (trace (fst (snd (Librarian.loadLibraryData (w, s)))))
  = alerts (trace w).
Proof.
  rewrite loadLibraryData_run. simpl.
  destruct (first_error w 2); simpl; rewrite alerts_app; simpl;
    by rewrite (right_id_L [] (++)).
Qed.

Lemma accepted_action user issueId act (w : world) (s : Librarian.state) :
  fate w 0 = None →
  let w' := fst (snd (Librarian.handleIssueAction user issueId act (w, s))) in
  let w2 := before_reload user issueId act w s in
  store w' = store w2
  ∧ writes (trace w') = writes (trace w2)
  ∧ alerts (trace w') = alerts (trace w2) ++ [success_text act].
Proof.
  intros Hfate. rewrite handleIssueAction_run. cbn zeta. rewrite Hfate.
  fold (before_reload user issueId act w s).
  unfold said. cbn [fst snd after_calls store trace].
  rewrite load_keeps_store, writes_app, alerts_app.
  rewrite load_writes_nothing, load_alerts_nothing.
  split; [done|]. split; [|done].
  simpl. by rewrite (right_id_L [] (++)).
Qed.

Lemma before_reload_writes user issueId act (w : world) (s : Librarian.state) :
  writes (trace (before_reload user issueId act w s))
  = writes (trace w)
    ++ ("book_issues", issue_payload user act w, issueId)
       :: match inventory_write act issueId s with
          | Some (q, k) => [("books", q, k)]
          | None => []
          end.
Proof.
  unfold before_reload.
  destruct (inventory_write act issueId s) as [[q k]|];
    cbn [written trace]; rewrite !writes_app;
    cbn [writes omap list_omap]; by rewrite <- ?(assoc_L (++)).
Qed.

Lemma before_reload_alerts user issueId act (w : world) (s : Librarian.state) :
  alerts (trace (before_reload user issueId act w s)) = alerts (trace w).
Proof.
  unfold before_reload.
  destruct (inventory_write act issueId s) as [[q k]|];
    cbn [written trace]; rewrite !alerts_app;
    cbn [alerts omap list_omap]; by rewrite !(right_id_L [] (++)).
Qed.

Lemma before_reload_issues user issueId act (w : world) (s : Librarian.state) :
  fate w 0 = None →
  Db.book_issues (store (before_reload user issueId act w s))
  = update_eq IssueRow.id (patch_issue (issue_payload user act w)) issueId
      (Db.book_issues (store w)).
Proof.
  intros Hfate. unfold before_reload.
  destruct (inventory_write act issueId s) as [[q k]|];
    cbn [written store]; rewrite ?fate_written, Hfate;
    [destruct (fate w 1)|]; done.
Qed.

Lemma before_reload_books user issueId act (w : world) (s : Librarian.state) :
  fate w 0 = None →
  Db.books (store (before_reload user issueId act w s))
  = match inventory_write act issueId s, fate w 1 with
    | Some (q, k), None => update_eq Book.id (patch_book q) k (Db.books (store w))
    | _, _ => Db.books (store w)
    end.
Proof.
  intros Hfate. unfold before_reload.
  destruct (inventory_write act issueId s) as [[q k]|];
    cbn [written store]; rewrite ?fate_written, Hfate;
    [destruct (fate w 1)|]; done.
Qed.

(** What an accepted action does to the issue and to the book it is held
    with, whatever their status and counts. *)
Lemma issue_action_effect user issueId act (w : world) (s : Librarian.state)
    (issue : BookIssue.t) (book : Book.t) :
  find_by BookIssue.id issueId (Librarian.bookIssues s) = Some issue →
  BookIssue.book issue = Some book →
  fate w 0 = None →
  let w' := fst (snd (Librarian.handleIssueAction user issueId act (w, s))) in
  let copies :=
    match act with
    | Librarian.approve => sub_number (Book.available_copies book) 1
    | Librarian.return_ => add_number (Book.available_copies book) 1
    end in
  writes (trace w')
    = writes (trace w)
      ++ [("book_issues", issue_payload user act w, issueId);
          ("books", {[ "available_copies" := VNum copies ]}, Book.id book)]
  ∧ alerts (trace w') = alerts (trace w) ++ [success_text act]
  ∧ (∀ r, r ∈ Db.book_issues (store w) → IssueRow.id r = issueId →
       ∃ r', r' ∈ Db.book_issues (store w')
             ∧ IssueRow.id r' = issueId
             ∧ IssueRow.status r'
               = match act with
                 | Librarian.approve => "issued"
                 | Librarian.return_ => "returned"
                 end
             ∧ (act = Librarian.return_ →
                IssueRow.return_date r' = Some (split_T_0 (clock w))))
  ∧ (fate w 1 = None → book ∈ Db.books (store w) →
       ∃ b', b' ∈ Db.books (store w')
             ∧ Book.id b' = Book.id book
             ∧ Book.total_copies b' = Book.total_copies book
             ∧ Book.available_copies b' = copies).
Proof.
  intros Hfind Hbook Hfate.
  destruct (accepted_action user issueId act w s Hfate) as (Hst & Hwr & Hal).
  cbn zeta in *. rewrite Hst, Hwr, Hal. clear Hst Hwr Hal.
  assert (Hinv : inventory_write act issueId s
                 = Some ({[ "available_copies" :=
                              VNum (match act with
                                    | Librarian.approve =>
                                        sub_number
                                          (Book.available_copies book) 1
                                    | Librarian.return_ =>
                                        add_number
                                          (Book.available_copies book) 1
                                    end) ]}, Book.id book)).
  { unfold inventory_write. rewrite Hfind. simpl. by rewrite Hbook. }
  rewrite before_reload_writes, before_reload_alerts, Hinv.
  rewrite before_reload_issues, before_reload_books, Hinv by done.
  repeat split.
  - intros r Hin Hid.
    exists (patch_issue (issue_payload user act w) r).
    split; [by apply update_eq_hit|]. by destruct act.
  - intros Hfate1 Hin. rewrite Hfate1.
    eexists. split; [by apply update_eq_hit|]. done.
Qed.

(** C1, as stated, fails: approving a requested issue whose book has no
    available copy is not refused; the issue becomes issued, the book's
    available_copies becomes -1, and the user is told that it succeeded. *)
Lemma approve_out_of_stock_counterexample :
  let st0 := Librarian.mount out_of_stock_world in
  let st := snd (Librarian.handleIssueAction librarian_user "i1"
                   Librarian.approve st0) in
  BookIssue.status <$> Librarian.bookIssues (snd st0) = ["requested"]
  ∧ Book.available_copies <$> Db.books (store (fst st0)) = [0]
  ∧ IssueRow.status <$> Db.book_issues (store (fst st)) = ["issued"]
  ∧ Book.available_copies <$> Db.books (store (fst st)) = [-1]
  ∧ alerts (trace (fst st)) = ["Book issued successfully!"].
Proof. vm_compute. done. Qed.

(** C1, amended: approve has no out-of-stock check.  For every snapshot in
    which the issue is requested and held with a book whose
    available_copies is 0, once the backend accepts the status write the
    handler sets the issue to issued, issues the inventory write
    available_copies = -1 for that book, and reports success; when that
    write is accepted as well, the stored book holds available_copies = -1. *)
Theorem approve_out_of_stock user issueId (w : world) (s : Librarian.state)
    (issue : BookIssue.t) (book : Book.t) :
  find_by BookIssue.id issueId (Librarian.bookIssues s) = Some issue →
  BookIssue.status issue = "requested" →
  BookIssue.book issue = Some book →
  Book.available_copies book = 0 →
  fate w 0 = None →
  let w' := fst (snd (Librarian.handleIssueAction user issueId
                        Librarian.approve (w, s))) in
  writes (trace w')
    = writes (trace w)
      ++ [("book_issues",
           <["issued_by" := value_of (user_id user)]>
             (<["status" := VStr "issued"]> ∅),
           issueId);
          ("books", {[ "available_copies" := VNum (-1) ]}, Book.id book)]
  ∧ alerts (trace w') = alerts (trace w) ++ ["Book issued successfully!"]
  ∧ (∀ r, r ∈ Db.book_issues (store w) → IssueRow.id r = issueId →
       ∃ r', r' ∈ Db.book_issues (store w')
             ∧ IssueRow.id r' = issueId ∧ IssueRow.status r' = "issued")
  ∧ (fate w 1 = None → book ∈ Db.books (store w) →
       ∃ b', b' ∈ Db.books (store w')
             ∧ Book.id b' = Book.id book
             ∧ Book.available_copies b' = -1).
Proof.
  intros Hfind _ Hbook Hzero Hfate.
  destruct (issue_action_effect user issueId Librarian.approve w s issue book
              Hfind Hbook Hfate) as (Hwr & Hal & Hrows & Hbooks).
  cbn zeta in *. rewrite Hzero in Hwr, Hbooks.
  split; [done|]. split; [done|]. split.
  - intros r Hin Hid. destruct (Hrows r Hin Hid) as (r' & ? & ? & ? & _).
    by exists r'.
  - intros Hfate1 Hin. destruct (Hbooks Hfate1 Hin) as (b' & ? & ? & _ & ?).
    by exists b'.
Qed.

Lemma approve_out_of_stock_witness :
  let st0 := Librarian.mount out_of_stock_world in
  let w' := fst (snd (Librarian.handleIssueAction librarian_user "i1"
                        Librarian.approve (fst st0, snd st0))) in
  alerts (trace w') = alerts (trace (fst st0)) ++ ["Book issued successfully!"]
  ∧ ∃ b', b' ∈ Db.books (store w')
          ∧ Book.id b' = "b1" ∧ Book.available_copies b' = -1.
Proof.
  destruct (approve_out_of_stock librarian_user "i1"
              (fst (Librarian.mount out_of_stock_world))
              (snd (Librarian.mount out_of_stock_world))
              out_of_stock_issue out_of_stock_book)
    as (_ & Hal & _ & Hbook); try reflexivity.
  split; [exact Hal|].
  apply Hbook; [reflexivity|]. vm_compute. apply list_elem_of_here.
Defined.

(** C2, as stated, fails: returning an issued issue whose book already has
    available_copies = total_copies = 2 stores available_copies = 3. *)
Lemma return_at_full_stock_counterexample :
  let st0 := Librarian.mount full_stock_world in
  let st := snd (Librarian.handleIssueAction librarian_user "i1"
                   Librarian.return_ st0) in
  BookIssue.status <$> Librarian.bookIssues (snd st0) = ["issued"]
  ∧ Book.available_copies <$> Db.books (store (fst st0)) = [2]
  ∧ Book.total_copies <$> Db.books (store (fst st)) = [2]
  ∧ Book.available_copies <$> Db.books (store (fst st)) = [3]
  ∧ alerts (trace (fst st)) = ["Book returned successfully!"].
Proof. vm_compute. done. Qed.

(** C2, amended: return has no upper bound on the count.  For every
    snapshot in which the issue is issued and held with a book whose
    available_copies equals its total_copies, a safe integer (below 2^53 in
    magnitude, so that one more is computed exactly), once the backend
    accepts the status write the handler issues the inventory write
    available_copies = total_copies + 1 and reports success; when that write
    is accepted as well, the stored book has one available copy more than
    its total. *)
Theorem return_at_full_stock user issueId (w : world) (s : Librarian.state)
    (issue : BookIssue.t) (book : Book.t) :
  find_by BookIssue.id issueId (Librarian.bookIssues s) = Some issue →
  BookIssue.status issue = "issued" →
  BookIssue.book issue = Some book →
  Book.available_copies book = Book.total_copies book →
  safe_integer (Book.total_copies book) →
  fate w 0 = None →
  let w' := fst (snd (Librarian.handleIssueAction user issueId
                        Librarian.return_ (w, s))) in
  writes (trace w')
    = writes (trace w)
      ++ [("book_issues",
           <["return_date" := VStr (split_T_0 (clock w))]>
             (<["status" := VStr "returned"]> ∅),
           issueId);
          ("books",
           {[ "available_copies" := VNum (Book.total_copies book + 1) ]},
           Book.id book)]
  ∧ alerts (trace w') = alerts (trace w) ++ ["Book returned successfully!"]
  ∧ (fate w 1 = None → book ∈ Db.books (store w) →
       ∃ b', b' ∈ Db.books (store w')
             ∧ Book.id b' = Book.id book
             ∧ Book.total_copies b' = Book.total_copies book
             ∧ Book.available_copies b' = Book.total_copies b' + 1).
Proof.
  intros Hfind _ Hbook Hfull Hsafe Hfate.
  destruct (issue_action_effect user issueId Librarian.return_ w s issue book
              Hfind Hbook Hfate) as (Hwr & Hal & _ & Hbooks).
  cbn zeta in *. rewrite Hfull, add_one_safe in Hwr, Hbooks by done.
  split; [done|]. split; [done|].
  intros Hfate1 Hin. destruct (Hbooks Hfate1 Hin) as (b' & ? & ? & Ht & ?).
  exists b'. by rewrite Ht.
Qed.

Lemma return_at_full_stock_witness :
  let st0 := Librarian.mount full_stock_world in
  let w' := fst (snd (Librarian.handleIssueAction librarian_user "i1"
                        Librarian.return_ (fst st0, snd st0))) in
  ∃ b', b' ∈ Db.books (store w')
        ∧ Book.id b' = "b1"
        ∧ Book.total_copies b' = 2
        ∧ Book.available_copies b' = Book.total_copies b' + 1.
Proof.
  destruct (return_at_full_stock librarian_user "i1"
              (fst (Librarian.mount full_stock_world))
              (snd (Librarian.mount full_stock_world))
              full_stock_issue full_stock_book)
    as (_ & _ & Hbook); try reflexivity.
  - split; reflexivity.
  - apply Hbook; [reflexivity|]. vm_compute. apply list_elem_of_here.
Defined.

(** C8: when the snapshot holds no issue with the given id, or holds it
    without a joined book, the handler still issues the status write for
    that id and issues no other write, so the books are left as they are,
    and it reports success once the backend has accepted the status write.
    (The lookup and the success path lie behind that write: when the
    backend answers it with an error the handler throws before them and
    reports failure, for these ids as for any other.) *)
Theorem issue_action_without_book user issueId act
    (w : world) (s : Librarian.state) :
  find_by BookIssue.id issueId (Librarian.bookIssues s) = None
  ∨ (∃ issue, find_by BookIssue.id issueId (Librarian.bookIssues s) = Some issue
              ∧ BookIssue.book issue = None) →
  let w' := fst (snd (Librarian.handleIssueAction user issueId act (w, s))) in
  writes (trace w')
    = writes (trace w) ++ [("book_issues", issue_payload user act w, issueId)]
  ∧ Db.books (store w') = Db.books (store w)
  ∧ alerts (trace w')
    = alerts (trace w)
      ++ [match fate w 0, act with
          | None, Librarian.approve => "Book issued successfully!"
          | None, Librarian.return_ => "Book returned successfully!"
          | Some _, Librarian.approve =>
              "Failed to approve book. Please try again."
          | Some _, Librarian.return_ =>
              "Failed to return book. Please try again."
          end].
Proof.
  intros Hmiss.
  assert (Hinv : inventory_write act issueId s = None).
  { unfold inventory_write.
    destruct Hmiss as [->|(issue & -> & Hbook)]; simpl; [done|].
    by rewrite Hbook. }
  destruct (fate w 0) as [e|] eqn:Hfate.
  - rewrite handleIssueAction_run. cbn zeta. rewrite Hfate.
    cbn [fst snd after_calls written store trace]. rewrite Hfate.
    rewrite !writes_app, !alerts_app.
    destruct act; cbn [failure_events writes alerts omap list_omap];
      by rewrite !(right_id_L [] (++)).
  - destruct (accepted_action user issueId act w s Hfate) as (Hst & Hwr & Hal).
    cbn zeta in *. rewrite Hst, Hwr, Hal.
    rewrite before_reload_writes, before_reload_alerts, Hinv.
    rewrite before_reload_books, Hinv by done.
    by destruct act.
Qed.

Lemma issue_action_without_book_witness :
  let st0 := Librarian.mount full_stock_world in
  let w' := fst (snd (Librarian.handleIssueAction librarian_user "ghost"
                        Librarian.return_ (fst st0, snd st0))) in
  find_by BookIssue.id "ghost" (Librarian.bookIssues (snd st0)) = None
  ∧ write_targets (trace w') = [("book_issues", "ghost")]
  ∧ Db.books (store w') = Db.books (store (fst st0))
  ∧ alerts (trace w') = ["Book returned successfully!"].
Proof.
  split; [reflexivity|].
  destruct (issue_action_without_book librarian_user "ghost" Librarian.return_
              (fst (Librarian.mount full_stock_world))
              (snd (Librarian.mount full_stock_world)))
    as (Hwr & Hbooks & Hal).
  - left. reflexivity.
  - cbn zeta. unfold write_targets. rewrite Hwr, Hal.
    split; [|split]; [|exact Hbooks|]; vm_compute; reflexivity.
Defined.

(** ** The end-to-end scenario *)

(** An action on a backend that answers every call. *)
Lemma quiet_action user issueId act (w : world) (s : Librarian.state) :
  transport w = [] →
  snd (Librarian.handleIssueAction user issueId act (w, s))
  = let d1 := apply_update "book_issues" (issue_payload user act w) issueId
                (store w) in
    let book_write := inventory_write act issueId s in
    let d2 := match book_write with
              | Some (q, k) => apply_update "books" q k d1
              | None => d1
              end in
    (mk_world d2 [] (clock w)
       (trace w
        ++ Remote (Update "book_issues" (issue_payload user act w) issueId)
           :: match book_write with
              | Some (q, k) => [Remote (Update "books" q k)]
              | None => []
              end
        ++ library_queries ++ [Alert (success_text act)]),
     fetched d2).
Proof.
  intros Hquiet. rewrite handleIssueAction_run. cbn zeta.
  destruct w as [d fates t tr]. simpl in Hquiet. subst fates.
  unfold fate. cbn [transport lookup list_lookup default].
  destruct (inventory_write act issueId s) as [[q k]|];
    rewrite loadLibraryData_run; unfold written, fate, said, first_error,
      after_calls; cbn; by rewrite <- ?(assoc_L (++)).
Qed.

Lemma mount_quiet (d : Db.t) (now : string) :
  Librarian.mount (mk_world d [] now [])
  = (mk_world d [] now library_queries, fetched d).
Proof. unfold Librarian.mount. by rewrite loadLibraryData_run. Qed.

Lemma find_by_hit {R} (key_of : R → string) (key : string) (r : R)
    (rows : list R) :
  key_of r = key → find_by key_of key (r :: rows) = Some r.
Proof. intros H. unfold find_by. simpl. by rewrite bool_decide_true. Qed.

Lemma update_eq_cons_hit {R} (key_of : R → string) (patch : R → R)
    (key : string) (r : R) (rows : list R) :
  key_of r = key →
  update_eq key_of patch key (r :: rows)
  = patch r :: update_eq key_of patch key rows.
Proof. intros H. unfold update_eq. simpl. by rewrite bool_decide_true. Qed.

Lemma apply_update_books p key (d : Db.t) :
  apply_update "books" p key d
  = Db.mk (update_eq Book.id (patch_book p) key (Db.books d))
          (Db.book_issues d) (Db.counseling_requests d) (Db.users d).
Proof. done. Qed.

Lemma apply_update_book_issues p key (d : Db.t) :
  apply_update "book_issues" p key d
  = Db.mk (Db.books d)
          (update_eq IssueRow.id (patch_issue p) key (Db.book_issues d))
          (Db.counseling_requests d) (Db.users d).
Proof. done. Qed.

Lemma scenario_inventory_write act copies status return_date issued_by
    bookId title author issueId issued_date due_date student people :
  inventory_write act issueId
    (fetched (scenario_db copies status return_date issued_by bookId title
                author issueId issued_date due_date student people))
  = Some ({[ "available_copies" :=
               VNum (match act with
                     | Librarian.approve => sub_number copies 1
                     | Librarian.return_ => add_number copies 1
                     end) ]}, bookId).
Proof.
  unfold inventory_write, fetched, select_book_issues, select_books,
    scenario_db.
  cbn [Librarian.bookIssues Db.book_issues Db.books fmap list_fmap store].
  rewrite find_by_hit by done.
  unfold issue_view at 1, join_book at 1.
  cbn [mbind option_bind BookIssue.book IssueRow.book_id Db.books].
  by rewrite find_by_hit by done.
Qed.

Lemma patch_book_copies (n : Z) (b : Book.t) :
  patch_book {[ "available_copies" := VNum n ]} b
  = Book.mk (Book.id b) (Book.title b) (Book.author b) (Book.total_copies b) n.
Proof. done. Qed.

Lemma patch_issue_approve user (w : world) (r : IssueRow.t) :
  patch_issue (issue_payload user Librarian.approve w) r
  = IssueRow.mk (IssueRow.id r) "issued" (IssueRow.issued_date r)
      (IssueRow.due_date r) (IssueRow.return_date r)
      (from_option Some (IssueRow.issued_by r) (user_id user))
      (IssueRow.book_id r) (IssueRow.student_id r).
Proof. by destruct user as [[u]|]. Qed.

Lemma patch_issue_return user (w : world) (r : IssueRow.t) :
  patch_issue (issue_payload user Librarian.return_ w) r
  = IssueRow.mk (IssueRow.id r) "returned" (IssueRow.issued_date r)
      (IssueRow.due_date r) (Some (split_T_0 (clock w)))
      (IssueRow.issued_by r) (IssueRow.book_id r) (IssueRow.student_id r).
Proof. done. Qed.

Lemma from_option_Some_None {A} (o : option A) : from_option Some None o = o.
Proof. by destruct o. Qed.

Lemma scenario_approved bookId title author issueId issued_date due_date now
    student people user :
  ∃ tr,
    after_approve bookId title author issueId issued_date due_date now
      student people user
    = (let d := scenario_db 1 "issued" None (user_id user) bookId title author
                  issueId issued_date due_date student people in
       (mk_world d [] now tr, fetched d))
    ∧ alerts tr = ["Book issued successfully!"].
Proof.
  eexists. unfold after_approve, scenario_world.
  rewrite mount_quiet, quiet_action by done.
  change (Db.mk [Book.mk bookId title author 2 2] _ _ _)
    with (scenario_db 2 "requested" None None bookId title author issueId
            issued_date due_date student people).
  rewrite scenario_inventory_write. cbv beta iota zeta.
  rewrite apply_update_books, apply_update_book_issues.
  unfold scenario_db.
  cbn [store clock trace Db.books Db.book_issues Db.counseling_requests
       Db.users].
  rewrite !update_eq_cons_hit by done.
  rewrite patch_book_copies, patch_issue_approve.
  cbn [Book.id Book.title Book.author Book.total_copies IssueRow.id
       IssueRow.issued_date IssueRow.due_date IssueRow.return_date
       IssueRow.issued_by IssueRow.book_id IssueRow.student_id].
  rewrite from_option_Some_None.
  split; [reflexivity|].
  rewrite !alerts_app. done.
Qed.

Lemma scenario_returned bookId title author issueId issued_date due_date now
    student people user :
  ∃ tr,
    after_return bookId title author issueId issued_date due_date now
      student people user
    = (let d := scenario_db 2 "returned" (Some (split_T_0 now)) (user_id user)
                  bookId title author issueId issued_date due_date student
                  people in
       (mk_world d [] now tr, fetched d))
    ∧ alerts tr = ["Book issued successfully!"; "Book returned successfully!"].
Proof.
  unfold after_return.
  destruct (scenario_approved bookId title author issueId issued_date due_date
              now student people user) as (tr & -> & Htr).
  eexists. cbv zeta. rewrite quiet_action by done.
  rewrite scenario_inventory_write. cbv beta iota zeta.
  rewrite apply_update_books, apply_update_book_issues.
  unfold scenario_db.
  cbn [store clock trace Db.books Db.book_issues Db.counseling_requests
       Db.users].
  rewrite !update_eq_cons_hit by done.
  rewrite patch_book_copies, patch_issue_return.
  cbn [Book.id Book.title Book.author Book.total_copies IssueRow.id
       IssueRow.issued_date IssueRow.due_date IssueRow.return_date
       IssueRow.issued_by IssueRow.book_id IssueRow.student_id clock].
  split; [reflexivity|].
  rewrite !alerts_app, Htr. done.
Qed.

(** C5: with one book of two copies, both available, and one requested
    issue of it, on a backend that answers every call, approve leaves the
    book with available_copies = 1 and the issue issued; returning it then
    leaves the book with available_copies = 2 and the issue returned with a
    return date (the date part of the clock's reading); the reloaded
    snapshot shows the same. *)
Theorem approve_then_return bookId title author issueId issued_date due_date
    now student people user :
  let st1 := after_approve bookId title author issueId issued_date due_date
               now student people user in
  let st2 := after_return bookId title author issueId issued_date due_date
               now student people user in
  (Db.books (store (fst st1)) = [Book.mk bookId title author 2 1]
   ∧ IssueRow.status <$> Db.book_issues (store (fst st1)) = ["issued"]
   ∧ Librarian.books (snd st1) = [Book.mk bookId title author 2 1]
   ∧ BookIssue.status <$> Librarian.bookIssues (snd st1) = ["issued"])
  ∧ (Db.books (store (fst st2)) = [Book.mk bookId title author 2 2]
     ∧ IssueRow.status <$> Db.book_issues (store (fst st2)) = ["returned"]
     ∧ IssueRow.return_date <$> Db.book_issues (store (fst st2))
       = [Some (split_T_0 now)]
     ∧ Librarian.books (snd st2) = [Book.mk bookId title author 2 2]
     ∧ BookIssue.status <$> Librarian.bookIssues (snd st2) = ["returned"]
     ∧ BookIssue.return_date <$> Librarian.bookIssues (snd st2)
       = [Some (split_T_0 now)])
  ∧ alerts (trace (fst st2))
    = ["Book issued successfully!"; "Book returned successfully!"].
Proof.
  cbv zeta.
  destruct (scenario_approved bookId title author issueId issued_date due_date
              now student people user) as (tr1 & -> & _).
  destruct (scenario_returned bookId title author issueId issued_date due_date
              now student people user) as (tr2 & -> & Htr2).
  repeat split; done.
Qed.

(** ** Loads that fail *)

Lemma first_error_fates (w : world) :
  first_error w 2
  = match fate w 0 with
    | Some e => Some e
    | None => fate w 1
    end.
Proof.
  destruct w as [d fates t tr]. unfold first_error, fate. simpl.
  by destruct fates as [|[e|] [|[e'|] rest]].
Qed.

(** C6, as stated, fails in its last part: a load whose query fails does
    not report the failure to its caller.  It returns normally, having only
    logged the error; and the action handler that awaits a failing reload
    goes on to tell the user that the action succeeded, over a snapshot that
    still shows the issue as requested. *)
Lemma load_failure_counterexample :
  let r := Librarian.loadLibraryData (first_load_failing_world,
                                      Librarian.initial) in
  let st := snd (Librarian.handleIssueAction librarian_user "i1"
                   Librarian.approve
                   (Librarian.mount reload_failing_world)) in
  (fst r = Normal ()
   ∧ trace (fst (snd r))
     = library_queries ++ [ConsoleError "Error loading library data:" "timeout"]
   ∧ Librarian.books (snd (snd r)) = []
   ∧ Librarian.loading (snd (snd r)) = false)
  ∧ (alerts (trace (fst st)) = ["Book issued successfully!"]
     ∧ IssueRow.status <$> Db.book_issues (store (fst st)) = ["issued"]
     ∧ BookIssue.status <$> Librarian.bookIssues (snd st) = ["requested"])
  ∧ fst (Counselor.loadCounselingRequests counselor_user
           (first_load_failing_world, Counselor.initial))
    = Normal ().
Proof. vm_compute. done. Qed.

(** C6, amended: every load returns normally to its caller and leaves the
    tables alone.  A load of the library, and a load of the counseling
    requests by a user with an id, clears the loading flag, and either every
    query is answered and the snapshot and the statistics are replaced by
    what was fetched, or a query fails and the snapshot and the statistics
    are left exactly as they were, the first failing query's error being
    logged on the console and not passed on.  A load of the counseling
    requests without a user id issues no query and changes nothing: the
    loading flag too stays as it was. *)
Theorem load_all_or_nothing user (w : world)
    (sl : Librarian.state) (sc : Counselor.state) :
  (let r := Librarian.loadLibraryData (w, sl) in
   let w' := fst (snd r) in
   let s' := snd (snd r) in
   fst r = Normal ()
   ∧ Librarian.loading s' = false
   ∧ store w' = store w
   ∧ ((fate w 0 = None ∧ fate w 1 = None
       ∧ Librarian.books s' = select_books (store w)
       ∧ Librarian.bookIssues s' = select_book_issues (store w)
       ∧ Librarian.stats s'
         = Librarian.derive_stats (select_books (store w))
                                  (select_book_issues (store w))
       ∧ trace w' = trace w ++ library_queries)
      ∨ (∃ e, (fate w 0 = Some e ∨ (fate w 0 = None ∧ fate w 1 = Some e))
              ∧ Librarian.books s' = Librarian.books sl
              ∧ Librarian.bookIssues s' = Librarian.bookIssues sl
              ∧ Librarian.stats s' = Librarian.stats sl
              ∧ trace w'
                = trace w ++ library_queries
                  ++ [ConsoleError "Error loading library data:" e])))
  ∧ (let r := Counselor.loadCounselingRequests user (w, sc) in
     let w' := fst (snd r) in
     let s' := snd (snd r) in
     fst r = Normal ()
     ∧ store w' = store w
     ∧ if truthy (user_id user) then
         Counselor.loading s' = false
         ∧ ((fate w 0 = None
             ∧ Counselor.requests s'
               = select_counseling_requests (store w) (id_of user)
             ∧ Counselor.stats s'
               = Counselor.derive_stats
                   (select_counseling_requests (store w) (id_of user))
             ∧ trace w' = trace w ++ [requests_query user])
            ∨ (∃ e, fate w 0 = Some e
                    ∧ Counselor.requests s' = Counselor.requests sc
                    ∧ Counselor.stats s' = Counselor.stats sc
                    ∧ trace w'
                      = trace w
                        ++ [requests_query user;
                            ConsoleError "Error loading counseling requests:"
                                         e]))
       else (w', s') = (w, sc)).
Proof.
  split; cbv zeta.
  - rewrite loadLibraryData_run, first_error_fates. cbn [fst snd].
    destruct (fate w 0) as [e|] eqn:H0; [|destruct (fate w 1) as [e|] eqn:H1].
    + repeat split. right. exists e. repeat split; auto.
    + repeat split. right. exists e. repeat split; auto.
    + repeat split. left. repeat split.
  - rewrite loadCounselingRequests_run. cbn [fst snd].
    destruct (truthy (user_id user)); [|done].
    destruct (fate w 0) as [e|] eqn:H0.
    + repeat split. right. exists e. repeat split.
    + repeat split. left. repeat split.
Qed.

(** ** Copies over a sequence of actions *)

Section Copies.

Lemma update_eq_miss {R} (key_of : R → string) (patch : R → R)
    (key : string) (rows : list R) :
  key ∉ key_of <$> rows → update_eq key_of patch key rows = rows.
Proof.
  unfold update_eq. induction rows as [|r rows IH]; [done|].
  rewrite !fmap_cons, not_elem_of_cons. intros [Hne Hrest].
  rewrite bool_decide_false by done. by rewrite IH.
Qed.

Lemma set_copies_ids (n : Z) (key : string) (rows : list Book.t) :
  Book.id <$> update_eq Book.id
                (patch_book {[ "available_copies" := VNum n ]}) key rows
  = Book.id <$> rows.
Proof.
  unfold update_eq. rewrite <- list_fmap_compose. apply list_fmap_ext.
  intros i b _. simpl. by destruct (bool_decide (Book.id b = key)).
Qed.

Lemma set_copies_totals (n : Z) (key : string) (rows : list Book.t) :
  Book.total_copies <$> update_eq Book.id
                (patch_book {[ "available_copies" := VNum n ]}) key rows
  = Book.total_copies <$> rows.
Proof.
  unfold update_eq. rewrite <- list_fmap_compose. apply list_fmap_ext.
  intros i b _. simpl. by destruct (bool_decide (Book.id b = key)).
Qed.

Lemma potential_set_copies (c n : Z) (book : Book.t)
    (held stored : list Book.t) :
  0 ≤ c →
  n ≤ Book.available_copies book + c →
  NoDup (Book.id <$> stored) →
  Book.id <$> held = Book.id <$> stored →
  book ∈ held →
  potential held
    (update_eq Book.id (patch_book {[ "available_copies" := VNum n ]})
               (Book.id book) stored)
  ≤ potential held stored + c.
Proof.
  intros Hc Hn. revert stored.
  induction held as [|v held IH]; intros [|d stored] Hnd Hids Hin;
    try (by inversion Hin); try (by inversion Hids).
  rewrite !fmap_cons in Hids. injection Hids as Hid Hids.
  rewrite fmap_cons in Hnd.
  pose proof (NoDup_cons_1_1 _ _ Hnd) as Hfresh.
  apply NoDup_cons_1_2 in Hnd.
  destruct (decide (Book.id d = Book.id book)) as [Heq|Hne].
  - rewrite update_eq_cons_hit by done.
    rewrite update_eq_miss by (by rewrite <- Heq).
    assert (book = v) as ->.
    { apply elem_of_cons in Hin as [->|Hin]; [done|].
      exfalso. apply Hfresh. rewrite Heq, <- Hids.
      by apply list_elem_of_fmap_2. }
    rewrite patch_book_copies. simpl. lia.
  - unfold update_eq. rewrite fmap_cons.
    rewrite bool_decide_false by done.
    fold (update_eq Book.id
            (patch_book {[ "available_copies" := VNum n ]})
            (Book.id book) stored).
    apply elem_of_cons in Hin as [->|Hin]; [congruence|].
    specialize (IH stored Hnd Hids Hin). simpl. lia.
Qed.

Lemma potential_above (held stored : list Book.t) :
  length held = length stored →
  total_of Book.available_copies stored ≤ potential held stored.
Proof.
  revert stored. induction held as [|v held IH]; intros [|d stored] Hlen;
    try done.
  simpl in *. specialize (IH stored). lia.
Qed.

Lemma potential_self (stored : list Book.t) :
  potential stored stored = total_of Book.available_copies stored.
Proof. induction stored as [|d stored IH]; simpl; lia. Qed.

Lemma total_of_fmap (f : Book.t → Z) (l l' : list Book.t) :
  f <$> l = f <$> l' → total_of f l = total_of f l'.
Proof.
  revert l'. induction l as [|b l IH]; intros [|b' l'] H; try done.
  rewrite !fmap_cons in H. injection H as Hb Hl. simpl.
  by rewrite Hb, (IH l').
Qed.

Lemma total_of_le (f g : Book.t → Z) (l : list Book.t) :
  Forall (λ b, f b ≤ g b) l → total_of f l ≤ total_of g l.
Proof. induction 1; simpl; lia. Qed.

End Copies.

Section Steps.
Variables (bound : Z) (totals : list Z).

Lemma in_step_ext (w w' : world) (s s' : Librarian.state) (bound' : Z) :
  Db.books (store w') = Db.books (store w) →
  Librarian.books s' = Librarian.books s →
  Librarian.bookIssues s' = Librarian.bookIssues s →
  bound ≤ bound' →
  in_step bound totals (w, s) → in_step bound' totals (w', s').
Proof.
  unfold in_step. cbn [fst snd]. intros -> -> -> Hle (? & ? & ? & ? & ?).
  repeat split; try done. lia.
Qed.

Lemma join_book_held (d : Db.t) (ref : option string) (b : Book.t) :
  join_book d ref = Some b → b ∈ Db.books d.
Proof.
  unfold join_book, find_by. destruct ref as [k|]; [|done]. simpl.
  intros H. apply find_some in H as [H _]. by apply list_elem_of_In.
Qed.

Lemma in_step_fetched (w w' : world) (s : Librarian.state) :
  store w' = store w →
  in_step bound totals (w, s) →
  in_step bound totals (w', fetched (store w)).
Proof.
  unfold in_step. cbn [fst snd fetched Librarian.books Librarian.bookIssues].
  intros -> (Hnd & Hids & Hheld & Htot & Hpot).
  unfold select_books, select_book_issues. repeat split; try done.
  - intros i b Hi Hb. apply list_elem_of_fmap in Hi as (r & -> & _).
    by apply join_book_held in Hb.
  - rewrite potential_self.
    etrans; [apply (potential_above (Librarian.books s))|done].
    by rewrite <- (length_fmap Book.id), Hids, length_fmap.
Qed.

Lemma inventory_write_Some act issueId (s : Librarian.state) q k :
  inventory_write act issueId s = Some (q, k) →
  ∃ issue book,
    issue ∈ Librarian.bookIssues s
    ∧ BookIssue.book issue = Some book
    ∧ q = {[ "available_copies" :=
               VNum (match act with
                     | Librarian.approve =>
                       sub_number (Book.available_copies book) 1
                     | Librarian.return_ =>
                       add_number (Book.available_copies book) 1
                     end) ]}
    ∧ k = Book.id book.
Proof.
  unfold inventory_write, find_by.
  destruct (find _ (Librarian.bookIssues s)) as [issue|] eqn:Hfind; [|done].
  simpl. destruct (BookIssue.book issue) as [book|] eqn:Hbook; [|done].
  simpl. intros [= <- <-]. exists issue, book.
  apply find_some in Hfind as [Hin _]. by apply list_elem_of_In in Hin.
Qed.
End Steps.

Lemma within_weaken (r r' : Z) (w w' : world) (s s' : Librarian.state) :
  Db.books (store w') = Db.books (store w) →
  Librarian.books s' = Librarian.books s →
  r ≤ r' →
  within r (w, s) → within r' (w', s').
Proof.
  unfold within. cbn [fst snd]. intros -> -> Hle [Hst Hheld].
  split; (eapply Forall_impl; [|eassumption]); simpl; lia.
Qed.

Lemma within_set_copies (r n : Z) (key : string) (rows : list Book.t) :
  Forall (λ b, Z.abs (Book.available_copies b) ≤ r) rows →
  Z.abs n ≤ r + 1 →
  Forall (λ b, Z.abs (Book.available_copies b) ≤ r + 1)
         (update_eq Book.id (patch_book {[ "available_copies" := VNum n ]})
                    key rows).
Proof.
  intros Hrows Hn. unfold update_eq. apply Forall_fmap.
  eapply Forall_impl; [|exact Hrows]. intros b Hb. simpl in *.
  destruct (bool_decide (Book.id b = key)); [|lia].
  rewrite patch_book_copies. simpl. lia.
Qed.

(** The inventory write of an action over held counts below 2^53: one less
    or one more than the held count, exactly. *)
Lemma inventory_write_exact act issueId (s : Librarian.state) q k (r : Z) :
  r < 2 ^ 53 →
  Forall (λ b, Z.abs (Book.available_copies b) ≤ r) (Librarian.books s) →
  (∀ i b, i ∈ Librarian.bookIssues s → BookIssue.book i = Some b →
          b ∈ Librarian.books s) →
  inventory_write act issueId s = Some (q, k) →
  ∃ book,
    book ∈ Librarian.books s
    ∧ Z.abs (Book.available_copies book) ≤ r
    ∧ q = {[ "available_copies" :=
               VNum (match act with
                     | Librarian.approve => Book.available_copies book - 1
                     | Librarian.return_ => Book.available_copies book + 1
                     end) ]}
    ∧ k = Book.id book.
Proof.
  intros Hr Hrange Hheld Hinv.
  apply inventory_write_Some in Hinv
    as (issue & book & Hissue & Hbook & -> & ->).
  pose proof (Hheld issue book Hissue Hbook) as Hin.
  rewrite Forall_forall in Hrange.
  pose proof (Hrange book (proj1 (list_elem_of_In _ _) Hin)) as Hb.
  simpl in Hb.
  exists book. repeat split; try done.
  destruct act; [rewrite sub_one_safe|rewrite add_one_safe];
    try done; unfold safe_integer; lia.
Qed.

Lemma in_step_before_reload user issueId act bound totals (r : Z)
    (w : world) (s : Librarian.state) :
  r < 2 ^ 53 →
  fate w 0 = None →
  in_step bound totals (w, s) →
  within r (w, s) →
  in_step (bound + step_cost act) totals
          (before_reload user issueId act w s, s)
  ∧ within (r + 1) (before_reload user issueId act w s, s).
Proof.
  intros Hr Hfate Hin Hwithin.
  assert (Hcost : 0 ≤ step_cost act) by (by destruct act).
  pose proof (before_reload_books user issueId act w s Hfate) as Hbooks.
  destruct (inventory_write act issueId s) as [[q k]|] eqn:Hinv;
    [destruct (fate w 1)|].
  2: { destruct Hin as (Hnd & Hids & Hheld & Htot & Hpot).
       destruct Hwithin as [Hstored Hkept].
       cbn [fst snd] in *.
       apply (inventory_write_exact _ _ _ _ _ r) in Hinv
         as (book & Hbook & Hb & -> & ->); try done.
       split.
       - unfold in_step. cbn [fst snd]. rewrite Hbooks.
         rewrite set_copies_ids, set_copies_totals.
         repeat split; try done.
         etrans; [apply (potential_set_copies (step_cost act))|lia];
           try done. by destruct act; simpl; lia.
       - unfold within. cbn [fst snd]. rewrite Hbooks. split.
         + apply within_set_copies; [done|]. destruct act; lia.
         + eapply Forall_impl; [|exact Hkept]. simpl. lia. }
  all: split;
    [eapply in_step_ext; [exact Hbooks|done|done| |exact Hin]; lia
    |eapply within_weaken; [exact Hbooks|done| |exact Hwithin]; lia].
Qed.

Lemma in_step_action user issueId act bound totals (r : Z)
    (w : world) (s : Librarian.state) :
  r < 2 ^ 53 →
  in_step bound totals (w, s) →
  within r (w, s) →
  in_step (bound + step_cost act) totals
          (snd (Librarian.handleIssueAction user issueId act (w, s)))
  ∧ within (r + 1)
           (snd (Librarian.handleIssueAction user issueId act (w, s))).
Proof.
  intros Hr Hin Hwithin.
  assert (Hcost : 0 ≤ step_cost act) by (by destruct act).
  rewrite handleIssueAction_run. cbv zeta. cbn [snd].
  destruct (fate w 0) as [e|] eqn:Hfate.
  - assert (Hsame : Db.books
              (store (after_calls
                        (written "book_issues" (issue_payload user act w)
                                 issueId w) 0 (failure_events act e)))
            = Db.books (store w)).
    { cbn [after_calls written store]. by rewrite Hfate. }
    split.
    + eapply in_step_ext; [exact Hsame|done|done| |exact Hin]. lia.
    + eapply within_weaken; [exact Hsame|done| |exact Hwithin]. lia.
  - fold (before_reload user issueId act w s).
    destruct (in_step_before_reload user issueId act bound totals r w s
                Hr Hfate Hin Hwithin) as [Hin2 Hwithin2].
    rewrite loadLibraryData_run. unfold said. cbn [fst snd].
    destruct (first_error _ 2).
    + split.
      * eapply in_step_ext; [|done|done|reflexivity|exact Hin2]. done.
      * eapply within_weaken; [|done|reflexivity|exact Hwithin2]. done.
    + split.
      * eapply in_step_ext;
          [|done|done|reflexivity|
           by apply (in_step_fetched _ _ (before_reload user issueId act w s)
                       (before_reload user issueId act w s) s)].
        done.
      * destruct Hwithin2 as [Hstored _]. cbn [fst snd] in Hstored.
        by split.
Qed.

Lemma in_step_actions user acts bound totals (r : Z)
    (st : world * Librarian.state) :
  r + Z.of_nat (length acts) ≤ 2 ^ 53 →
  in_step bound totals st →
  within r st →
  in_step (bound + returns acts) totals
          (snd (Librarian.handleIssueActions user acts st)).
Proof.
  revert bound r st. induction acts as [|[issueId act] acts IH];
    intros bound r [w s] Hr Hin Hwithin.
  - simpl. by rewrite Z.add_0_r.
  - cbn [Librarian.handleIssueActions]. rewrite bind_run.
    cbn [length] in Hr.
    destruct (in_step_action user issueId act bound totals r w s)
      as [Hin1 Hwithin1]; [lia|done|done|].
    rewrite handleIssueAction_run in *. cbv beta iota.
    apply (IH _ (r + 1)) in Hin1; [|lia|done].
    replace (bound + returns ((issueId, act) :: acts))
      with (bound + step_cost act + returns acts); [done|].
    destruct act; simpl; lia.
Qed.

Lemma total_of_nonneg (f : Book.t → Z) (l : list Book.t) :
  Forall (λ b, 0 ≤ f b) l → 0 ≤ total_of f l.
Proof. induction 1; simpl; lia. Qed.

Lemma within_totals (l : list Book.t) :
  Forall (λ b, 0 ≤ Book.available_copies b ≤ Book.total_copies b) l →
  Forall (λ b, Z.abs (Book.available_copies b)
               ≤ total_of Book.total_copies l) l.
Proof.
  induction 1 as [|b l Hb Hl IH]; [done|].
  assert (0 ≤ total_of Book.total_copies l).
  { apply total_of_nonneg. eapply Forall_impl; [|exact Hl]. simpl. lia. }
  constructor; [simpl; lia|].
  eapply Forall_impl; [|exact IH]. simpl. lia.
Qed.

(** C3, as stated, fails: from a snapshot in which 0 <= available_copies <=
    total_copies holds for the only book (0 of 1), returning the same issue
    twice leaves 2 available copies against 1 in total. *)
Lemma double_return_counterexample :
  let st0 := Librarian.mount lent_out_world in
  let st := snd (Librarian.handleIssueActions librarian_user
                   [("i1", Librarian.return_); ("i1", Librarian.return_)]
                   st0) in
  Forall (λ b, 0 ≤ Book.available_copies b ≤ Book.total_copies b)
         (Db.books (store (fst st0)))
  ∧ total_of Book.available_copies (Db.books (store (fst st))) = 2
  ∧ total_of Book.total_copies (Db.books (store (fst st))) = 1
  ∧ ¬ (total_of Book.available_copies (Db.books (store (fst st)))
       ≤ total_of Book.total_copies (Db.books (store (fst st)))).
Proof.
  cbv zeta. split; [|split; [|split]].
  - vm_compute. repeat constructor; discriminate.
  - by vm_compute.
  - by vm_compute.
  - vm_compute. intros H. by apply H.
Qed.

(** C3, amended: for every freshly loaded snapshot of tables whose book ids
    are distinct and in which 0 <= available_copies <= total_copies holds
    for each book, and for every finite sequence of approve and return
    actions applied through the handler, whatever the backend answers, as
    long as the sum of total_copies plus the number of actions is at most
    2^53 (so that every count that is written is computed exactly), no
    total_copies is changed and the sum of available_copies is at most the
    sum of total_copies plus the number of return actions in the sequence. *)
Theorem inventory_bound user (w : world)
    (acts : list (string * Librarian.action)) :
  NoDup (Book.id <$> Db.books (store w)) →
  Forall (λ b, 0 ≤ Book.available_copies b ≤ Book.total_copies b)
         (Db.books (store w)) →
  total_of Book.total_copies (Db.books (store w)) + Z.of_nat (length acts)
    ≤ 2 ^ 53 →
  let st := snd (Librarian.handleIssueActions user acts
                   (w, fetched (store w))) in
  Book.total_copies <$> Db.books (store (fst st))
    = Book.total_copies <$> Db.books (store w)
  ∧ total_of Book.available_copies (Db.books (store (fst st)))
    ≤ total_of Book.total_copies (Db.books (store (fst st))) + returns acts.
Proof.
  intros Hnd Hinv Hroom. cbv zeta.
  assert (Hstart : in_step (total_of Book.available_copies (Db.books (store w)))
                     (Book.total_copies <$> Db.books (store w))
                     (w, fetched (store w))).
  { unfold in_step. cbn [fst snd fetched Librarian.books Librarian.bookIssues].
    unfold select_books, select_book_issues. repeat split; try done.
    - intros i b Hi Hb. apply list_elem_of_fmap in Hi as (r & -> & _).
      by apply join_book_held in Hb.
    - by rewrite potential_self. }
  assert (Hwithin : within (total_of Book.total_copies (Db.books (store w)))
                      (w, fetched (store w))).
  { split; by apply within_totals. }
  apply (in_step_actions user acts _ _ _ _ Hroom) in Hstart; [|done].
  destruct Hstart as (_ & Hids & _ & Htot & Hpot).
  split; [done|].
  rewrite (total_of_fmap Book.total_copies _ _ Htot).
  etrans; [apply (potential_above
                    (Librarian.books
                       (snd (snd (Librarian.handleIssueActions user acts
                                    (w, fetched (store w)))))))|].
  { by rewrite <- (length_fmap Book.id), Hids, length_fmap. }
  etrans; [exact Hpot|].
  apply Z.add_le_mono_r, total_of_le.
  eapply Forall_impl; [|exact Hinv]. simpl. lia.
Qed.

Lemma inventory_bound_witness :
  let st := snd (Librarian.handleIssueActions librarian_user
                   [("i1", Librarian.return_); ("i1", Librarian.return_)]
                   (lent_out_world, fetched (store lent_out_world))) in
  Book.total_copies <$> Db.books (store (fst st)) = [1]
  ∧ total_of Book.available_copies (Db.books (store (fst st)))
    ≤ total_of Book.total_copies (Db.books (store (fst st))) + 2.
Proof.
  apply (inventory_bound librarian_user lent_out_world
           [("i1", Librarian.return_); ("i1", Librarian.return_)]).
  - vm_compute. repeat constructor. by intros ?%elem_of_nil.
  - vm_compute. repeat constructor; discriminate.
  - vm_compute. discriminate.
Defined.

(** ** Every action of the librarian, whatever the backend answers *)

Lemma handleIssueAction_normal user issueId act
    (w : world) (s : Librarian.state) :
  fst (Librarian.handleIssueAction user issueId act (w, s)) = Normal ().
Proof. by rewrite handleIssueAction_run. Qed.

Lemma failed_action user issueId act (w : world) (s : Librarian.state)
    (e : string) :
  fate w 0 = Some e →
  snd (Librarian.handleIssueAction user issueId act (w, s))
  = (after_calls (written "book_issues" (issue_payload user act w) issueId w)
       0 (failure_events act e), s).
Proof. intros H. rewrite handleIssueAction_run. cbv zeta. by rewrite H. Qed.

(** X1: an action of the librarian never throws and shows exactly one
    alert; which one depends on the answer to the status write alone:
    success when it is accepted, also when the inventory write or the
    reload fails afterwards, and failure when it is refused.  It issues the
    status write first and at most one more write. *)
Theorem issue_action_one_alert user issueId act
    (w : world) (s : Librarian.state) :
  let r := Librarian.handleIssueAction user issueId act (w, s) in
  let w' := fst (snd r) in
  fst r = Normal ()
  ∧ alerts (trace w')
    = alerts (trace w)
      ++ [match fate w 0, act with
          | None, Librarian.approve => "Book issued successfully!"
          | None, Librarian.return_ => "Book returned successfully!"
          | Some _, Librarian.approve =>
              "Failed to approve book. Please try again."
          | Some _, Librarian.return_ =>
              "Failed to return book. Please try again."
          end]
  ∧ ∃ more,
      writes (trace w')
      = writes (trace w)
        ++ ("book_issues", issue_payload user act w, issueId) :: more
      ∧ (length more ≤ 1)%nat
      ∧ (fate w 0 ≠ None → more = []).
Proof.
  cbv zeta. split; [apply handleIssueAction_normal|].
  destruct (fate w 0) as [e|] eqn:Hfate.
  - rewrite (failed_action _ _ _ _ _ e Hfate).
    cbn [fst snd after_calls written store trace].
    rewrite !writes_app, !alerts_app. split.
    + destruct act; cbn [failure_events alerts omap list_omap];
        by rewrite !(right_id_L [] (++)).
    + exists []. split; [|split; [simpl; lia|done]].
      destruct act; cbn [failure_events writes omap list_omap];
        by rewrite !(right_id_L [] (++)).
  - destruct (accepted_action user issueId act w s Hfate) as (_ & Hwr & Hal).
    cbv zeta in *. rewrite Hwr, Hal.
    rewrite before_reload_writes, before_reload_alerts.
    split; [by destruct act|].
    destruct (inventory_write act issueId s) as [[q k]|].
    + exists [("books", q, k)]. split; [done|]. split; [simpl; lia|done].
    + exists []. split; [done|]. split; [simpl; lia|done].
Qed.

(** X2: when the backend refuses the status write, the librarian's handler
    stops there: the tables and the whole component state (snapshot,
    statistics, loading flag) are as before, no inventory write and no
    reload is issued, the error is logged and the failure alert shown. *)
Theorem refused_status_write_changes_nothing user issueId act
    (w : world) (s : Librarian.state) (e : string) :
  fate w 0 = Some e →
  let st' := snd (Librarian.handleIssueAction user issueId act (w, s)) in
  store (fst st') = store w
  ∧ snd st' = s
  ∧ trace (fst st')
    = trace w
      ++ [Remote (Update "book_issues" (issue_payload user act w) issueId);
          ConsoleError ("Error " +:+ Librarian.action_text act +:+ "ing book:") e;
          Alert ("Failed to " +:+ Librarian.action_text act
                 +:+ " book. Please try again.")].
Proof.
  intros Hfate. cbv zeta. rewrite (failed_action _ _ _ _ _ e Hfate).
  cbn [fst snd after_calls written store trace]. rewrite Hfate.
  repeat split. rewrite <- (assoc_L (++)). by destruct act.
Qed.

Lemma refused_status_write_changes_nothing_witness :
  let st := Librarian.mount failing_world in
  let st' := snd (Librarian.handleIssueAction librarian_user "i1"
                    Librarian.approve (fst st, snd st)) in
  store (fst st') = store (fst st) ∧ snd st' = snd st.
Proof.
  destruct (refused_status_write_changes_nothing librarian_user "i1"
              Librarian.approve (fst (Librarian.mount failing_world))
              (snd (Librarian.mount failing_world)) "connection lost")
    as (Hstore & Hstate & _); [reflexivity|].
  split; [exact Hstore|exact Hstate].
Defined.

(** X3: the answer to the inventory write is not looked at.  When the
    status write is accepted and the inventory write is refused, the issue
    has its new status, the books are exactly as before, and the user is
    still told that the action succeeded. *)
Theorem refused_inventory_write_is_ignored user issueId act
    (w : world) (s : Librarian.state) (issue : BookIssue.t) (book : Book.t)
    (e : string) :
  find_by BookIssue.id issueId (Librarian.bookIssues s) = Some issue →
  BookIssue.book issue = Some book →
  fate w 0 = None →
  fate w 1 = Some e →
  let w' := fst (snd (Librarian.handleIssueAction user issueId act (w, s))) in
  Db.books (store w') = Db.books (store w)
  ∧ (∀ r, r ∈ Db.book_issues (store w) → IssueRow.id r = issueId →
       ∃ r', r' ∈ Db.book_issues (store w')
             ∧ IssueRow.id r' = issueId
             ∧ IssueRow.status r' = status_after act)
  ∧ alerts (trace w') = alerts (trace w) ++ [success_text act].
Proof.
  intros Hfind Hbook Hfate Hfate1. cbv zeta.
  destruct (issue_action_effect user issueId act w s issue book
              Hfind Hbook Hfate) as (_ & Hal & Hrows & _).
  destruct (accepted_action user issueId act w s Hfate) as (Hst & _ & _).
  cbv zeta in *. split; [|split; [|done]].
  - rewrite Hst, before_reload_books by done. rewrite Hfate1.
    by destruct (inventory_write act issueId s) as [[q k]|].
  - intros r Hin Hid. destruct (Hrows r Hin Hid) as (r' & ? & ? & ? & _).
    exists r'. by destruct act.
Qed.

(** ** Lookups and updates by key *)

Section Keys.
Context {R : Type} (key_of : R → string).

Lemma Forall2_diag (rel : R → R → Prop) (rows : list R) :
  (∀ r, rel r r) → Forall2 rel rows rows.
Proof. intros H. induction rows; by constructor. Qed.

Lemma find_by_elem (key : string) (rows : list R) (r : R) :
  find_by key_of key rows = Some r → r ∈ rows ∧ key_of r = key.
Proof.
  unfold find_by. intros H. apply find_some in H as [Hin Hkey].
  split; [by apply list_elem_of_In|]. by apply bool_decide_eq_true in Hkey.
Qed.

Lemma find_by_None (key : string) (rows : list R) :
  find_by key_of key rows = None → key ∉ key_of <$> rows.
Proof.
  unfold find_by. intros H Hin.
  apply list_elem_of_fmap in Hin as (r & -> & Hin).
  apply list_elem_of_In in Hin.
  pose proof (find_none _ _ H r Hin) as Hno. simpl in Hno.
  by rewrite bool_decide_true in Hno.
Qed.

Lemma find_by_unique (rows : list R) (r : R) :
  NoDup (key_of <$> rows) → r ∈ rows →
  find_by key_of (key_of r) rows = Some r.
Proof.
  induction rows as [|x rows IH]; intros Hnd Hin; [by inversion Hin|].
  rewrite fmap_cons in Hnd.
  pose proof (NoDup_cons_1_1 _ _ Hnd) as Hfresh.
  apply NoDup_cons_1_2 in Hnd.
  apply elem_of_cons in Hin as [->|Hin]; [by apply find_by_hit|].
  unfold find_by. simpl. rewrite bool_decide_false.
  - by apply IH.
  - intros Heq. apply Hfresh. rewrite Heq. by apply list_elem_of_fmap_2.
Qed.

Lemma find_by_update_eq (patch : R → R) (key : string) (rows : list R) :
  (∀ r, key_of (patch r) = key_of r) →
  find_by key_of key (update_eq key_of patch key rows)
  = patch <$> find_by key_of key rows.
Proof.
  intros Hkey. unfold find_by, update_eq.
  induction rows as [|x rows IH]; [done|].
  rewrite fmap_cons. simpl.
  destruct (decide (key_of x = key)) as [Heq|Hne].
  - rewrite !(bool_decide_true (key_of x = key)) by done.
    by rewrite bool_decide_true by (by rewrite Hkey).
  - rewrite !(bool_decide_false (key_of x = key)) by done. apply IH.
Qed.

Lemma update_eq_update_eq (f g : R → R) (key : string) (rows : list R) :
  (∀ r, key_of (g r) = key_of r) →
  update_eq key_of f key (update_eq key_of g key rows)
  = update_eq key_of (f ∘ g) key rows.
Proof.
  intros Hkey. unfold update_eq. rewrite <- list_fmap_compose.
  apply list_fmap_ext. intros i r _. simpl.
  destruct (decide (key_of r = key)) as [Heq|Hne].
  - rewrite !(bool_decide_true (key_of r = key)) by done.
    by rewrite bool_decide_true by (by rewrite Hkey).
  - by rewrite !(bool_decide_false (key_of r = key)) by done.
Qed.

Lemma update_eq_same (patch : R → R) (key : string) (rows : list R) :
  (∀ r, r ∈ rows → key_of r = key → patch r = r) →
  update_eq key_of patch key rows = rows.
Proof.
  intros H. unfold update_eq. rewrite <- (list_fmap_id rows) at 2.
  apply list_fmap_ext. intros i r Hi. simpl.
  destruct (decide (key_of r = key)) as [Heq|Hne].
  - rewrite bool_decide_true by done. apply H; [|done].
    by eapply list_elem_of_lookup_2.
  - by rewrite bool_decide_false.
Qed.

Lemma update_eq_keys (patch : R → R) (key : string) (rows : list R) :
  (∀ r, key_of (patch r) = key_of r) →
  key_of <$> update_eq key_of patch key rows = key_of <$> rows.
Proof.
  intros Hkey. unfold update_eq. rewrite <- list_fmap_compose.
  apply list_fmap_ext. intros i r _. simpl.
  by destruct (bool_decide (key_of r = key)).
Qed.

Lemma unique_key (rows : list R) (r r' : R) :
  NoDup (key_of <$> rows) → r ∈ rows → r' ∈ rows →
  key_of r = key_of r' → r = r'.
Proof.
  intros Hnd Hr Hr' Hkey.
  pose proof (find_by_unique rows r Hnd Hr) as H1.
  pose proof (find_by_unique rows r' Hnd Hr') as H2.
  rewrite Hkey in H1. congruence.
Qed.
End Keys.

Lemma find_by_fmap {R V} (key_of : R → string) (key_of' : V → string)
    (view : R → V) (key : string) (rows : list R) :
  (∀ r, key_of' (view r) = key_of r) →
  find_by key_of' key (view <$> rows) = view <$> find_by key_of key rows.
Proof.
  intros Hkey. unfold find_by.
  induction rows as [|x rows IH]; [done|].
  rewrite fmap_cons. simpl. rewrite Hkey.
  by destruct (bool_decide (key_of x = key)).
Qed.

(** The inventory write of an action taken on a fresh snapshot. *)
Lemma inventory_write_fetched act issueId (d : Db.t) :
  inventory_write act issueId (fetched d)
  = r ← find_by IssueRow.id issueId (Db.book_issues d);
    book ← join_book d (IssueRow.book_id r);
    Some ({[ "available_copies" :=
               VNum (match act with
                     | Librarian.approve =>
                       sub_number (Book.available_copies book) 1
                     | Librarian.return_ =>
                       add_number (Book.available_copies book) 1
                     end) ]}, Book.id book).
Proof.
  unfold inventory_write, fetched, select_book_issues.
  cbn [Librarian.bookIssues].
  rewrite (find_by_fmap IssueRow.id BookIssue.id) by done.
  by destruct (find_by IssueRow.id issueId (Db.book_issues d)).
Qed.

Lemma patch_issue_id user act (w : world) (r : IssueRow.t) :
  IssueRow.id (patch_issue (issue_payload user act w) r) = IssueRow.id r.
Proof. by destruct act. Qed.

Lemma patch_issue_book_id user act (w : world) (r : IssueRow.t) :
  IssueRow.book_id (patch_issue (issue_payload user act w) r)
  = IssueRow.book_id r.
Proof. by destruct act. Qed.

Lemma patch_issue_status user act (w : world) (r : IssueRow.t) :
  IssueRow.status (patch_issue (issue_payload user act w) r)
  = status_after act.
Proof. by destruct act. Qed.

Lemma patch_issue_frame user act (w : world) (r : IssueRow.t) :
  same_issue_frame act r (patch_issue (issue_payload user act w) r).
Proof. by destruct act. Qed.

(** The tables after an action on a fresh snapshot, on a backend that
    answers every call. *)
Lemma quiet_tables user issueId act (w : world) :
  transport w = [] →
  let d := store w in
  let st' := snd (Librarian.handleIssueAction user issueId act
                    (w, fetched d)) in
  transport (fst st') = []
  ∧ clock (fst st') = clock w
  ∧ snd st' = fetched (store (fst st'))
  ∧ Db.book_issues (store (fst st'))
    = update_eq IssueRow.id (patch_issue (issue_payload user act w)) issueId
        (Db.book_issues d)
  ∧ Db.books (store (fst st'))
    = match inventory_write act issueId (fetched d) with
      | Some (q, k) => update_eq Book.id (patch_book q) k (Db.books d)
      | None => Db.books d
      end
  ∧ Db.counseling_requests (store (fst st')) = Db.counseling_requests d
  ∧ Db.users (store (fst st')) = Db.users d.
Proof.
  intros Hquiet. cbv zeta. rewrite quiet_action by done. cbv zeta.
  destruct (inventory_write act issueId (fetched (store w))) as [[q k]|];
    by repeat split.
Qed.

Lemma before_reload_others user issueId act (w : world) (s : Librarian.state) :
  Db.counseling_requests (store (before_reload user issueId act w s))
    = Db.counseling_requests (store w)
  ∧ Db.users (store (before_reload user issueId act w s)) = Db.users (store w).
Proof.
  unfold before_reload.
  destruct (inventory_write act issueId s) as [[q k]|];
    cbn [written store]; rewrite ?fate_written;
    [destruct (fate w 1)|]; by destruct (fate w 0).
Qed.

(** X4: whatever the backend answers, an action of the librarian writes
    nothing but the status, issued_by and return_date of issues and the
    available_copies of books: every stored issue keeps its id, dates, book
    and student references (approve keeps return_date, return keeps
    issued_by), every stored book keeps its id, title, author and
    total_copies, and the counseling requests and the users are untouched. *)
Theorem issue_action_frame user issueId act
    (w : world) (s : Librarian.state) :
  let w' := fst (snd (Librarian.handleIssueAction user issueId act (w, s))) in
  Forall2 (same_issue_frame act)
          (Db.book_issues (store w)) (Db.book_issues (store w'))
  ∧ Forall2 same_book_frame (Db.books (store w)) (Db.books (store w'))
  ∧ Db.counseling_requests (store w') = Db.counseling_requests (store w)
  ∧ Db.users (store w') = Db.users (store w).
Proof.
  cbv zeta.
  assert (Hissue : ∀ r, same_issue_frame act r r) by (by intros r; repeat split).
  assert (Hbook : ∀ b, same_book_frame b b) by (by intros b; repeat split).
  destruct (fate w 0) as [e|] eqn:Hfate.
  - rewrite (failed_action _ _ _ _ _ e Hfate).
    cbn [fst snd after_calls written store]. rewrite Hfate.
    repeat split; by apply Forall2_diag.
  - destruct (accepted_action user issueId act w s Hfate) as (-> & _ & _).
    destruct (before_reload_others user issueId act w s) as [-> ->].
    rewrite before_reload_issues, before_reload_books by done.
    split; [|split; [|done]].
    + apply update_eq_Forall2; [done|]. intros r. apply patch_issue_frame.
    + destruct (inventory_write act issueId s) as [[q k]|] eqn:Hinv;
        [destruct (fate w 1)|]; try by apply Forall2_diag.
      apply inventory_write_Some in Hinv as (i & b & _ & _ & -> & ->).
      apply update_eq_Forall2; [done|]. intros r. by destruct act.
Qed.

Lemma patch_book_again (m n : Z) (b : Book.t) :
  patch_book {[ "available_copies" := VNum m ]}
    (patch_book {[ "available_copies" := VNum n ]} b)
  = patch_book {[ "available_copies" := VNum m ]} b.
Proof. done. Qed.

(** X5: on a backend that answers every call and over books with distinct
    ids whose available_copies are safe integers (below 2^53 in magnitude),
    approving an issue and then returning it, each time from the freshly
    loaded snapshot, leaves every book exactly as it was; this holds for
    every issue id, held or not, with or without a book. *)
Theorem approve_then_return_restores_books user issueId (w : world) :
  transport w = [] →
  NoDup (Book.id <$> Db.books (store w)) →
  Forall (λ b, safe_integer (Book.available_copies b)) (Db.books (store w)) →
  let st1 := snd (Librarian.handleIssueAction user issueId Librarian.approve
                    (w, fetched (store w))) in
  let st2 := snd (Librarian.handleIssueAction user issueId Librarian.return_
                    st1) in
  Db.books (store (fst st2)) = Db.books (store w).
Proof.
  intros Hquiet Hnd Hsafe. cbv zeta.
  destruct (quiet_tables user issueId Librarian.approve w Hquiet)
    as (Hq1 & _ & Hs1 & Hi1 & Hb1 & _).
  cbv zeta in *.
  destruct (Librarian.handleIssueAction user issueId Librarian.approve
              (w, fetched (store w))) as [r1 [w1 s1]].
  cbn [fst snd] in *. subst s1.
  destruct (quiet_tables user issueId Librarian.return_ w1 Hq1)
    as (_ & _ & _ & _ & Hb2 & _).
  cbv zeta in *. rewrite Hb2. clear Hb2.
  rewrite !inventory_write_fetched in *.
  rewrite Hi1, find_by_update_eq by (intros; apply patch_issue_id).
  destruct (find_by IssueRow.id issueId (Db.book_issues (store w)))
    as [r|]; [|done].
  cbn [fmap option_fmap option_map mbind option_bind] in *.
  rewrite patch_issue_book_id.
  unfold join_book in *.
  destruct (IssueRow.book_id r) as [k|]; [|done].
  cbn [mbind option_bind] in *.
  destruct (find_by Book.id k (Db.books (store w))) as [book|] eqn:Hfind.
  - apply find_by_elem in Hfind as Hbook. destruct Hbook as [Hin <-].
    cbn [mbind option_bind] in Hb1. rewrite Hb1.
    rewrite find_by_update_eq by done. rewrite Hfind.
    cbn [fmap option_fmap option_map mbind option_bind].
    rewrite patch_book_copies. cbn [Book.id Book.available_copies].
    rewrite update_eq_update_eq by done.
    apply update_eq_same. intros b Hb Hid. simpl.
    rewrite patch_book_again, patch_book_copies.
    assert (b = book) as -> by (by eapply (unique_key Book.id)).
    rewrite Forall_forall in Hsafe.
    pose proof (Hsafe book (proj1 (list_elem_of_In _ _) Hin)) as [Hlo Hhi].
    simpl in Hlo, Hhi.
    rewrite sub_one_safe by done. rewrite add_number_exact by lia.
    destruct book. simpl. f_equal. lia.
  - cbn [mbind option_bind] in Hb1. rewrite Hb1, Hfind. done.
Qed.

(** ** What the librarian's page offers *)

Lemma buttons_of_issue (issue : BookIssue.t) (act : Librarian.action) :
  act ∈ LibrarianView.buttons_of issue
  ↔ BookIssue.status issue = status_before act.
Proof.
  unfold LibrarianView.buttons_of.
  destruct (decide (BookIssue.status issue = "requested")) as [Hr|Hr];
    destruct (decide (BookIssue.status issue = "issued")) as [Hi|Hi];
    rewrite ?(bool_decide_true _ Hr), ?(bool_decide_false _ Hr),
      ?(bool_decide_true _ Hi), ?(bool_decide_false _ Hi);
    try (by rewrite Hr in Hi).
  all: simpl; rewrite ?elem_of_cons, ?elem_of_nil.
  all: destruct act; simpl; split; intros H; try done.
  all: try (by left); try (by destruct H as [H|H]).
  all: by rewrite H in Hr.
Qed.

Lemma buttons_of_issue_length (issue : BookIssue.t) :
  (length (LibrarianView.buttons_of issue) ≤ 1)%nat.
Proof.
  unfold LibrarianView.buttons_of.
  destruct (decide (BookIssue.status issue = "requested")) as [Hr|Hr];
    destruct (decide (BookIssue.status issue = "issued")) as [Hi|Hi];
    rewrite ?(bool_decide_true _ Hr), ?(bool_decide_false _ Hr),
      ?(bool_decide_true _ Hi), ?(bool_decide_false _ Hi);
    try (by rewrite Hr in Hi); simpl; lia.
Qed.

Lemma bind_length_le {A B} (f : A → list B) (l : list A) :
  (∀ x, length (f x) ≤ 1)%nat → (length (l ≫= f) ≤ length l)%nat.
Proof.
  intros H. induction l as [|x l IH]; [done|].
  rewrite bind_cons, length_app. specialize (H x). simpl. lia.
Qed.

Lemma offered_rows (s : Librarian.state) :
  offered s
  = if Librarian.loading s then []
    else issue ← take 10 (Librarian.bookIssues s);
         (λ act, (BookIssue.id issue, act))
           <$> LibrarianView.buttons_of issue.
Proof.
  unfold offered, LibrarianView.render.
  destruct (Librarian.loading s); [done|].
  destruct (take 10 (Librarian.bookIssues s)) as [|i l] eqn:Htake; [done|].
  rewrite bool_decide_false by done.
  cbn [LibrarianView.clicks]. by rewrite list_fmap_bind.
Qed.

Lemma offered_elem (s : Librarian.state) issueId act :
  (issueId, act) ∈ offered s
  ↔ Librarian.loading s = false
    ∧ ∃ issue, issue ∈ take 10 (Librarian.bookIssues s)
               ∧ BookIssue.id issue = issueId
               ∧ BookIssue.status issue = status_before act.
Proof.
  rewrite offered_rows. destruct (Librarian.loading s).
  { rewrite elem_of_nil. by split; [|intros [? _]]. }
  rewrite list_elem_of_bind. split.
  - intros (issue & Hin & Htake). split; [done|].
    apply list_elem_of_fmap in Hin as (a & [= -> ->] & Ha).
    exists issue. by rewrite <- buttons_of_issue.
  - intros (_ & issue & Htake & <- & Hst). exists issue. split; [|done].
    apply list_elem_of_fmap. exists act. by rewrite buttons_of_issue.
Qed.

Lemma covered_icons (s : Librarian.state) :
  covered s →
  Forall (λ r, is_Some (Badge.icon (LibrarianView.badge r)))
         (LibrarianView.row_of <$> take 10 (Librarian.bookIssues s)).
Proof.
  intros Hcov. apply Forall_fmap. eapply Forall_impl; [|exact Hcov].
  intros issue Hst. simpl in *. unfold issue_statuses in Hst.
  repeat (apply elem_of_cons in Hst as [->|Hst]; [by eexists|]).
  by apply elem_of_nil in Hst.
Qed.

(** X6: on a page of the librarian whose shown rows all carry a declared
    status, every badge has its icon, and the page accepts a click
    (id, action) exactly when it is not loading and one of the first ten
    held issues has that id and is requested (for approve) or issued (for
    return).  So it accepts nothing on returned or overdue issues or beyond
    the tenth row, never both actions on one row, and at most ten clicks in
    all. *)
Theorem offered_clicks (s : Librarian.state) :
  covered s →
  (∀ issueId act,
     (issueId, act) ∈ offered s
     ↔ Librarian.loading s = false
       ∧ ∃ issue, issue ∈ take 10 (Librarian.bookIssues s)
                  ∧ BookIssue.id issue = issueId
                  ∧ BookIssue.status issue
                    = match act with
                      | Librarian.approve => "requested"
                      | Librarian.return_ => "issued"
                      end)
  ∧ (length (offered s) ≤ 10)%nat
  ∧ (∀ issue, length (LibrarianView.buttons_of issue) ≤ 1)%nat
  ∧ (∀ cards rows,
       LibrarianView.render s = LibrarianView.Page cards
                                  (LibrarianView.Rows rows) →
       Forall (λ r, is_Some (Badge.icon (LibrarianView.badge r))) rows).
Proof.
  intros Hcov.
  split; [apply offered_elem|]. split; [|split; [apply buttons_of_issue_length|]].
  - rewrite offered_rows. destruct (Librarian.loading s); [simpl; lia|].
    etrans; [apply bind_length_le|].
    + intros issue. rewrite length_fmap. apply buttons_of_issue_length.
    + rewrite length_take. lia.
  - intros cards rows. unfold LibrarianView.render.
    destruct (Librarian.loading s); [done|].
    destruct (bool_decide _); [done|].
    remember (LibrarianView.row_of <$> take 10 (Librarian.bookIssues s))
      as shown eqn:Hs.
    intros [= _ <-]. subst shown. by apply covered_icons.
Qed.

(** X7: a click that the page accepts always reaches a held issue: the
    handler's lookup by id finds an issue with that id, so the inventory
    write is left out only when that issue has no joined book. *)
Theorem click_finds_issue (s : Librarian.state) issueId act :
  (issueId, act) ∈ offered s →
  ∃ issue,
    find_by BookIssue.id issueId (Librarian.bookIssues s) = Some issue
    ∧ BookIssue.id issue = issueId
    ∧ (inventory_write act issueId s = None ↔ BookIssue.book issue = None).
Proof.
  intros Hin. apply offered_elem in Hin as (_ & issue & Htake & Hid & _).
  apply subseteq_take in Htake.
  destruct (find_by BookIssue.id issueId (Librarian.bookIssues s))
    as [found|] eqn:Hfind.
  - exists found. split; [done|].
    apply find_by_elem in Hfind as Hfound. split; [by destruct Hfound|].
    unfold inventory_write. rewrite Hfind. simpl.
    by destruct (BookIssue.book found).
  - apply find_by_None in Hfind. exfalso. apply Hfind.
    rewrite <- Hid. by apply list_elem_of_fmap_2.
Qed.

(** ** Clicks on a steady dashboard *)

Lemma count_rows_cons {R} (P : R → Prop) `{∀ r, Decision (P r)}
    (x : R) (rows : list R) :
  count_rows P (x :: rows) = ind (P x) + count_rows P rows.
Proof.
  unfold count_rows, ind. rewrite filter_cons.
  destruct (decide (P x)); simpl length; lia.
Qed.

Lemma count_rows_update {R} (key_of : R → string) (patch : R → R)
    (P : R → Prop) `{∀ r, Decision (P r)} (rows : list R) (r : R) :
  NoDup (key_of <$> rows) → r ∈ rows →
  count_rows P (update_eq key_of patch (key_of r) rows)
  = count_rows P rows - ind (P r) + ind (P (patch r)).
Proof.
  induction rows as [|x rows IH]; intros Hnd Hin; [by inversion Hin|].
  rewrite fmap_cons in Hnd.
  pose proof (NoDup_cons_1_1 _ _ Hnd) as Hfresh.
  apply NoDup_cons_1_2 in Hnd.
  destruct (decide (key_of x = key_of r)) as [Heq|Hne].
  - assert (r = x) as ->.
    { apply elem_of_cons in Hin as [->|Hin]; [done|].
      exfalso. apply Hfresh. rewrite Heq. by apply list_elem_of_fmap_2. }
    rewrite update_eq_cons_hit by done.
    rewrite update_eq_miss by done. rewrite !count_rows_cons. lia.
  - apply elem_of_cons in Hin as [->|Hin]; [done|].
    unfold update_eq. rewrite fmap_cons, bool_decide_false by done.
    fold (update_eq key_of patch (key_of r) rows).
    rewrite !count_rows_cons, IH by done. lia.
Qed.

(** What a click does to the tables of a steady dashboard. *)
Lemma steady_click user issueId act (w : world) (s : Librarian.state) :
  steady (w, s) →
  (issueId, act) ∈ offered s →
  let st' := snd (Librarian.handleIssueAction user issueId act (w, s)) in
  ∃ r,
    r ∈ take 10 (Db.book_issues (store w))
    ∧ IssueRow.id r = issueId
    ∧ IssueRow.status r = status_before act
    ∧ steady st'
    ∧ Db.book_issues (store (fst st'))
      = update_eq IssueRow.id (patch_issue (issue_payload user act w))
          issueId (Db.book_issues (store w))
    ∧ Db.books (store (fst st'))
      = match join_book (store w) (IssueRow.book_id r) with
        | Some book =>
            update_eq Book.id
              (patch_book
                 {[ "available_copies" :=
                      VNum (match act with
                            | Librarian.approve =>
                                sub_number (Book.available_copies book) 1
                            | Librarian.return_ =>
                                add_number (Book.available_copies book) 1
                            end) ]})
              (Book.id book) (Db.books (store w))
        | None => Db.books (store w)
        end.
Proof.
  intros (Hquiet & Hfresh & Hbooks & Hissues) Hclick. cbn [fst snd] in *.
  subst s. cbv zeta.
  apply offered_elem in Hclick as (_ & issue & Htake & Hid & Hst).
  cbn [fetched Librarian.bookIssues] in Htake. unfold select_book_issues in Htake.
  rewrite <- fmap_take in Htake.
  apply list_elem_of_fmap in Htake as (r & -> & Hr).
  cbn [issue_view BookIssue.id BookIssue.status] in Hid, Hst.
  destruct (quiet_tables user issueId act w Hquiet)
    as (Hq & _ & Hs & Hi & Hb & _).
  cbv zeta in *. exists r. repeat split; try done.
  - rewrite Hb.
    destruct (inventory_write act issueId (fetched (store w)))
      as [[q k]|] eqn:Hinv.
    + apply inventory_write_Some in Hinv as (? & ? & _ & _ & -> & ->).
      by rewrite set_copies_ids.
    + done.
  - rewrite Hi. rewrite update_eq_keys; [done|]. intros. apply patch_issue_id.
  - rewrite Hb, inventory_write_fetched. rewrite <- Hid.
    rewrite find_by_unique; [|done|by eapply subseteq_take].
    cbn [mbind option_bind].
    by destruct (join_book (store w) (IssueRow.book_id r)).
Qed.

(** X8: on a steady dashboard (fresh snapshot, distinct ids, backend
    answering) a click moves exactly the clicked issue one step, requested
    to issued or issued to returned, and leaves every other stored issue
    as it is; the dashboard is steady again, and its page then accepts for
    that issue only Mark Returned after an approval and nothing after a
    return. *)
Theorem click_moves_one_issue user issueId act
    (w : world) (s : Librarian.state) :
  steady (w, s) →
  (issueId, act) ∈ offered s →
  let st' := snd (Librarian.handleIssueAction user issueId act (w, s)) in
  steady st'
  ∧ Forall2 (issue_moved issueId act)
            (Db.book_issues (store w)) (Db.book_issues (store (fst st')))
  ∧ ∀ next, (issueId, next) ∈ offered (snd st')
            ↔ act = Librarian.approve ∧ next = Librarian.return_.
Proof.
  intros Hsteady Hclick.
  destruct (steady_click user issueId act w s Hsteady Hclick)
    as (r & Hr & Hid & Hst & Hsteady' & Hi & _).
  destruct Hsteady as (_ & _ & _ & Hnd). cbv zeta in *. cbn [fst snd] in Hnd.
  split; [done|]. split.
  - rewrite Hi. unfold update_eq.
    apply Forall2_fmap_r, Forall_Forall2_diag, Forall_forall. intros x Hx.
    apply list_elem_of_In in Hx. unfold compose.
    destruct (decide (IssueRow.id x = issueId)) as [Heq|Hne].
    + rewrite bool_decide_true by done. right.
      assert (x = r) as ->.
      { eapply (unique_key IssueRow.id); [done|done| |congruence].
        by eapply subseteq_take. }
      split; [done|]. split; [done|].
      split; [apply patch_issue_status|apply patch_issue_frame].
    + rewrite bool_decide_false by done. by left.
  - intros next. destruct Hsteady' as (_ & Hfresh' & _).
    cbn [fst snd] in Hfresh'. rewrite Hfresh', offered_elem.
    cbn [fetched Librarian.loading Librarian.bookIssues].
    unfold select_book_issues. rewrite <- fmap_take, Hi.
    split.
    + intros (_ & issue & Hin & Hid' & Hst').
      apply list_elem_of_fmap in Hin as (x & -> & Hx).
      cbn [issue_view BookIssue.id BookIssue.status] in Hid', Hst'.
      apply subseteq_take in Hx. unfold update_eq in Hx.
      apply list_elem_of_fmap in Hx as (y & -> & Hy).
      destruct (decide (IssueRow.id y = issueId)) as [Heq|Hne].
      * rewrite bool_decide_true in Hst' by done.
        rewrite patch_issue_status in Hst'. by destruct act, next.
      * rewrite bool_decide_false in Hid' by done. done.
    + intros [-> ->]. split; [done|].
      exists (issue_view
                (store (fst (snd (Librarian.handleIssueAction user issueId
                                    Librarian.approve (w, s)))))
                (patch_issue (issue_payload user Librarian.approve w) r)).
      split; [|by rewrite <- Hid].
      apply list_elem_of_fmap_2.
      unfold update_eq. rewrite <- fmap_take.
      apply list_elem_of_fmap. exists r. by rewrite bool_decide_true.
Qed.

Lemma lent_after_click user issueId act (w : world) (d' : Db.t)
    (r : IssueRow.t) (k : string) :
  NoDup (IssueRow.id <$> Db.book_issues (store w)) →
  r ∈ Db.book_issues (store w) →
  IssueRow.id r = issueId →
  IssueRow.status r = status_before act →
  Db.book_issues d'
  = update_eq IssueRow.id (patch_issue (issue_payload user act w)) issueId
      (Db.book_issues (store w)) →
  lent d' k
  = lent (store w) k
    + match act with Librarian.approve => 1 | Librarian.return_ => -1 end
      * ind (IssueRow.book_id r = Some k).
Proof.
  intros Hnd Hr Hid Hst Hi. unfold lent. rewrite Hi, <- Hid.
  rewrite count_rows_update by done.
  unfold ind at 1 2.
  destruct (decide (on_loan r ∧ IssueRow.book_id r = Some k))
    as [[Hloan Hk]|Hno];
    destruct (decide (on_loan (patch_issue (issue_payload user act w) r)
                      ∧ IssueRow.book_id
                          (patch_issue (issue_payload user act w) r) = Some k))
      as [[Hloan' Hk']|Hno'].
  all: unfold on_loan in *.
  all: rewrite ?patch_issue_status, ?patch_issue_book_id in *.
  all: unfold ind; destruct (decide (IssueRow.book_id r = Some k));
    destruct act; simpl in *; try lia.
  all: try (by destruct Hloan; congruence).
  all: try (by destruct Hloan'; congruence).
  all: try (exfalso; apply Hno; split; [by left|done]).
  all: try (exfalso; apply Hno'; split; [by left|done]).
Qed.

Lemma lent_range (d : Db.t) (k : string) :
  0 ≤ lent d k ≤ Z.of_nat (length (Db.book_issues d)).
Proof.
  unfold lent, count_rows.
  pose proof (length_filter
                (λ r, on_loan r ∧ IssueRow.book_id r = Some k)
                (Db.book_issues d)).
  lia.
Qed.

(** On balanced and roomy tables every available count is a safe integer. *)
Lemma balanced_safe (d : Db.t) (b : Book.t) :
  balanced d → roomy d → b ∈ Db.books d →
  safe_integer (Book.available_copies b).
Proof.
  unfold balanced, roomy. rewrite !Forall_forall. intros Hbal Hroom Hin.
  apply list_elem_of_In in Hin.
  pose proof (Hbal b Hin) as Hb. pose proof (Hroom b Hin) as Hr.
  pose proof (lent_range d (Book.id b)). simpl in *.
  unfold safe_integer. lia.
Qed.

Lemma click_keeps_balance user issueId act (w : world) (s : Librarian.state) :
  steady (w, s) →
  roomy (store w) →
  balanced (store w) →
  (issueId, act) ∈ offered s →
  let st' := snd (Librarian.handleIssueAction user issueId act (w, s)) in
  steady st' ∧ roomy (store (fst st')) ∧ balanced (store (fst st')).
Proof.
  intros Hsteady Hroom Hbal Hclick.
  destruct (steady_click user issueId act w s Hsteady Hclick)
    as (r & Hr & Hid & Hst & Hsteady' & Hi & Hb).
  destruct Hsteady as (_ & _ & Hbooks & Hissues). cbn [fst snd] in *.
  cbv zeta in *. split; [done|].
  apply subseteq_take in Hr.
  pose proof (λ k, lent_after_click user issueId act w _ r k
                     Hissues Hr Hid Hst Hi) as Hlent.
  pose proof (λ b, balanced_safe (store w) b Hbal Hroom) as Hsafe.
  assert (Hlen : length (Db.book_issues
                           (store (fst (snd (Librarian.handleIssueAction
                                               user issueId act (w, s))))))
                 = length (Db.book_issues (store w))).
  { rewrite Hi. unfold update_eq. by rewrite length_fmap. }
  unfold balanced, roomy in *. rewrite Hlen, Hb.
  rewrite Forall_forall in Hbal. rewrite Forall_forall in Hroom.
  destruct (join_book (store w) (IssueRow.book_id r)) as [book|] eqn:Hjoin.
  - unfold join_book in Hjoin.
    destruct (IssueRow.book_id r) as [k0|] eqn:Href; [|done].
    cbn [mbind option_bind] in Hjoin.
    apply find_by_elem in Hjoin as [Hbook <-].
    unfold update_eq. split.
    + apply Forall_fmap, Forall_forall. intros b Hin.
      pose proof (Hroom b Hin) as Hbr. unfold compose. simpl in *.
      destruct (bool_decide (Book.id b = Book.id book)); [|done].
      by rewrite patch_book_copies.
    + apply Forall_fmap, Forall_forall. intros b Hin.
      apply list_elem_of_In in Hin. unfold compose.
      destruct (decide (Book.id b = Book.id book)) as [Heq|Hne].
      * rewrite bool_decide_true by done.
        assert (b = book) as -> by (by eapply (unique_key Book.id)).
        rewrite patch_book_copies. cbn [Book.id Book.available_copies
                                         Book.total_copies].
        rewrite Hlent. unfold ind. rewrite decide_True by done.
        pose proof (Hsafe book Hbook) as Hs.
        apply list_elem_of_In, Hbal in Hbook.
        destruct act; [rewrite sub_one_safe by done
                      |rewrite add_one_safe by done]; lia.
      * rewrite bool_decide_false by done.
        rewrite Hlent. unfold ind. rewrite decide_False by congruence.
        apply list_elem_of_In, Hbal in Hin. lia.
  - split; [by apply Forall_forall|].
    apply Forall_forall. intros b Hin.
    rewrite Hlent. unfold ind. rewrite decide_False.
    + apply Hbal in Hin. lia.
    + intros Href. rewrite Href in Hjoin. unfold join_book in Hjoin.
      cbn [mbind option_bind] in Hjoin. apply find_by_None in Hjoin.
      apply Hjoin. apply list_elem_of_fmap_2. by apply list_elem_of_In.
Qed.

(** X9: clicks made one after the other keep the copies balanced.  On a
    backend that answers every call, over books and issues with distinct
    ids and totals that leave room for one copy per stored issue below
    2^53, take any run of clicks in which each click is made on the page as
    it is rendered after the action before it has finished (no two actions
    overlap).  If every book's available_copies plus the number of its
    issued or overdue issues equals its total_copies before the run, it
    does so after it, and the dashboard is steady again. *)
Theorem clicks_keep_copies_balanced user
    (st st' : world * Librarian.state) :
  steady st →
  roomy (store (fst st)) →
  balanced (store (fst st)) →
  rtc (click user) st st' →
  steady st' ∧ roomy (store (fst st')) ∧ balanced (store (fst st')).
Proof.
  intros Hsteady Hroom Hbal Hrun.
  induction Hrun as [st|st st1 st' Hstep _ IH]; [done|].
  destruct Hstep as [issueId act w s Hclick].
  destruct (click_keeps_balance user issueId act w s Hsteady Hroom Hbal
              Hclick) as (? & ? & ?).
  by apply IH.
Qed.

(** ** Every action of the counselor, and clicks on a steady queue *)

(** X10: an action of the counselor never throws and shows exactly one
    alert, decided by the answer to the status write alone: success when
    it is accepted, also when the reload fails afterwards, and failure
    when it is refused; in that case no reload is issued and the tables
    and the whole component state are as before. *)
Theorem request_action_outcome user requestId act
    (w : world) (s : Counselor.state) :
  let r := Counselor.handleRequestAction user requestId act (w, s) in
  let w' := fst (snd r) in
  fst r = Normal ()
  ∧ alerts (trace w')
    = alerts (trace w)
      ++ [match fate w 0, act with
          | None, Counselor.accept => "Request accepted successfully!"
          | None, Counselor.complete => "Request completeed successfully!"
          | Some _, Counselor.accept =>
              "Failed to accept request. Please try again."
          | Some _, Counselor.complete =>
              "Failed to complete request. Please try again."
          end]
  ∧ match fate w 0 with
    | None => True
    | Some e =>
        store w' = store w
        ∧ snd (snd r) = s
        ∧ trace w'
          = trace w
            ++ [Remote (Update "counseling_requests" (request_payload act w)
                               requestId);
                ConsoleError ("Error " +:+ Counselor.action_text act
                              +:+ "ing request:") e;
                Alert ("Failed to " +:+ Counselor.action_text act
                       +:+ " request. Please try again.")]
    end.
Proof.
  cbv zeta. rewrite handleRequestAction_run. cbv zeta.
  split; [done|].
  destruct (fate w 0) as [e|] eqn:Hfate; cbn [fst snd].
  - cbn [after_calls written store trace]. rewrite Hfate.
    rewrite !alerts_app. split.
    + destruct act; cbn [request_failure_events alerts omap list_omap];
        by rewrite !(right_id_L [] (++)).
    + repeat split. rewrite <- (assoc_L (++)). by destruct act.
  - split; [|done]. rewrite loadCounselingRequests_run.
    destruct (truthy (user_id user));
      [destruct (fate (written _ _ _ _) 0)|].
    all: destruct act; cbn [fst snd after_calls written trace request_payload];
      rewrite !alerts_app;
      cbn [requests_query request_success_text alerts omap list_omap];
      by rewrite ?(right_id_L [] (++)).
Qed.

Lemma request_buttons (request : CounselingRequest.t)
    (act : Counselor.action) :
  act ∈ CounselorView.buttons_of request
  ↔ CounselingRequest.status request = request_status_before act.
Proof.
  unfold CounselorView.buttons_of.
  destruct (decide (CounselingRequest.status request = "pending")) as [Hr|Hr];
    destruct (decide (CounselingRequest.status request = "accepted"))
      as [Hi|Hi];
    rewrite ?(bool_decide_true _ Hr), ?(bool_decide_false _ Hr),
      ?(bool_decide_true _ Hi), ?(bool_decide_false _ Hi);
    try (by rewrite Hr in Hi).
  all: simpl; rewrite ?elem_of_cons, ?elem_of_nil.
  all: destruct act; simpl; split; intros H; try done.
  all: try (by left); try (by destruct H as [H|H]).
  all: by rewrite H in Hr.
Qed.

Lemma offered_requests_elem (s : Counselor.state) requestId act :
  (requestId, act) ∈ offered_requests s
  ↔ Counselor.loading s = false
    ∧ ∃ request, request ∈ take 5 (Counselor.requests s)
                 ∧ CounselingRequest.id request = requestId
                 ∧ CounselingRequest.status request
                   = request_status_before act.
Proof.
  unfold offered_requests, CounselorView.render.
  destruct (Counselor.loading s).
  { simpl. rewrite elem_of_nil. by split; [|intros [? _]]. }
  destruct (Counselor.requests s) as [|q l] eqn:Hreq.
  { simpl. rewrite elem_of_nil. split; [done|].
    intros (_ & ? & Hin & _). by apply elem_of_nil in Hin. }
  rewrite bool_decide_false by done.
  cbn [CounselorView.clicks]. rewrite list_fmap_bind, list_elem_of_bind.
  split.
  - intros (request & Hin & Htake). split; [done|].
    apply list_elem_of_fmap in Hin as (a & [= -> ->] & Ha).
    exists request. by rewrite <- request_buttons.
  - intros (_ & request & Htake & <- & Hst). exists request. split; [|done].
    apply list_elem_of_fmap. exists act. split; [done|].
    by apply request_buttons.
Qed.

Lemma patch_request_row (act : Counselor.action) (w : world)
    (r : RequestRow.t) :
  patch_request (request_payload act w) r
  = RequestRow.mk (RequestRow.id r) (RequestRow.reason r)
      (RequestRow.message r) (request_status_after act)
      (RequestRow.requested_at r)
      (match act with
       | Counselor.accept => RequestRow.completed_at r
       | Counselor.complete => Some (clock w)
       end)
      (RequestRow.student_id r) (RequestRow.counselor_id r).
Proof. by destruct act. Qed.

Lemma filter_update_eq {R} (key_of : R → string) (patch : R → R)
    (p : R → bool) (key : string) (rows : list R) :
  (∀ r, p (patch r) = p r) →
  List.filter p (update_eq key_of patch key rows)
  = update_eq key_of patch key (List.filter p rows).
Proof.
  intros Hp. unfold update_eq. induction rows as [|x rows IH]; [done|].
  rewrite fmap_cons. simpl.
  destruct (bool_decide (key_of x = key)) eqn:Hk; rewrite ?Hp;
    destruct (p x); rewrite ?fmap_cons, ?Hk, IH; done.
Qed.

(** The tables and the state after a click on a steady queue. *)
Lemma steady_request_click user requestId act
    (w : world) (s : Counselor.state) :
  steady_queue user (w, s) →
  (requestId, act) ∈ offered_requests s →
  let st' := snd (Counselor.handleRequestAction user requestId act (w, s)) in
  steady_queue user st'
  ∧ Db.counseling_requests (store (fst st'))
    = update_eq RequestRow.id (patch_request (request_payload act w))
        requestId (Db.counseling_requests (store w))
  ∧ ∃ r, r ∈ take 5 (List.filter
                       (λ r, bool_decide (RequestRow.counselor_id r
                                          = id_of user))
                       (Db.counseling_requests (store w)))
         ∧ RequestRow.id r = requestId
         ∧ RequestRow.status r = request_status_before act.
Proof.
  intros (Huser & Hquiet & Hfresh & Hnd) Hclick. cbn [fst snd] in *.
  subst s. cbv zeta.
  apply offered_requests_elem in Hclick as (_ & q & Htake & Hid & Hst).
  cbn [fetched_requests Counselor.requests] in Htake.
  unfold select_counseling_requests in Htake.
  rewrite <- fmap_take in Htake.
  apply list_elem_of_fmap in Htake as (r & -> & Hr).
  cbn [request_view CounselingRequest.id CounselingRequest.status] in Hid, Hst.
  rewrite handleRequestAction_run. cbv zeta.
  destruct w as [d fates t tr]. cbn [transport store] in *. subst fates.
  unfold fate. cbn [transport lookup list_lookup default snd].
  rewrite loadCounselingRequests_run, Huser.
  unfold written, fate.
  cbn [transport lookup list_lookup default drop fst snd after_calls store].
  split; [|split; [done|by exists r]].
  repeat split; try done. cbn [fst store].
  unfold apply_update. simpl.
  rewrite update_eq_keys; [done|]. intros x. by rewrite patch_request_row.
Qed.

Lemma steady_request_rows user requestId act
    (w : world) (s : Counselor.state) :
  steady_queue user (w, s) →
  (requestId, act) ∈ offered_requests s →
  let st' := snd (Counselor.handleRequestAction user requestId act (w, s)) in
  steady_queue user st'
  ∧ Forall2 (request_moved user requestId act (clock w))
            (Db.counseling_requests (store w))
            (Db.counseling_requests (store (fst st'))).
Proof.
  intros Hsteady Hclick.
  destruct (steady_request_click user requestId act w s Hsteady Hclick)
    as (Hsteady' & Hrows & r & Hr & Hid & Hst).
  destruct Hsteady as (_ & _ & _ & Hnd). cbn [fst snd] in Hnd.
  cbv zeta in *. split; [done|]. rewrite Hrows. unfold update_eq.
  apply Forall2_fmap_r, Forall_Forall2_diag, Forall_forall. intros x Hx.
  apply list_elem_of_In in Hx. unfold compose.
  apply subseteq_take, list_elem_of_In, filter_In in Hr as [Hr Hmine].
  apply list_elem_of_In in Hr. apply bool_decide_eq_true in Hmine.
  destruct (decide (RequestRow.id x = requestId)) as [Heq|Hne].
  - rewrite bool_decide_true by done. right.
    assert (x = r) as ->
      by (eapply (unique_key RequestRow.id); [done|done|done|congruence]).
    repeat split; try done. apply patch_request_row.
  - rewrite bool_decide_false by done. by left.
Qed.

(** X11: on a steady queue a click advances exactly the clicked request,
    which is one of this counselor's, one step: accept only ever takes a
    pending request to accepted, complete only an accepted one to completed
    with the clock's reading as completion time; every other stored
    request is left as it is.  The page then accepts for that request only
    Mark Complete after an accept and nothing after a complete. *)
Theorem request_click_moves_one user requestId act
    (w : world) (s : Counselor.state) :
  steady_queue user (w, s) →
  (requestId, act) ∈ offered_requests s →
  let st' := snd (Counselor.handleRequestAction user requestId act (w, s)) in
  steady_queue user st'
  ∧ Forall2 (request_moved user requestId act (clock w))
            (Db.counseling_requests (store w))
            (Db.counseling_requests (store (fst st')))
  ∧ ∀ next, (requestId, next) ∈ offered_requests (snd st')
            ↔ act = Counselor.accept ∧ next = Counselor.complete.
Proof.
  intros Hsteady Hclick.
  destruct (steady_request_rows user requestId act w s Hsteady Hclick)
    as (Hsteady' & Hmoved).
  destruct (steady_request_click user requestId act w s Hsteady Hclick)
    as (_ & Hrows & r & Hr & Hid & Hst).
  cbv zeta in *. split; [done|]. split; [done|].
  intros next. destruct Hsteady' as (_ & _ & Hfresh' & _).
  cbn [fst snd] in Hfresh'. rewrite Hfresh', offered_requests_elem.
  cbn [fetched_requests Counselor.loading Counselor.requests].
  unfold select_counseling_requests. rewrite <- fmap_take, Hrows.
  rewrite filter_update_eq by (intros x; by rewrite patch_request_row).
  unfold update_eq at 1. rewrite <- fmap_take.
  split.
  - intros (_ & q & Hin & Hid' & Hst').
    apply list_elem_of_fmap in Hin as (x & -> & Hx).
    cbn [request_view CounselingRequest.id CounselingRequest.status]
      in Hid', Hst'.
    apply list_elem_of_fmap in Hx as (y & -> & Hy).
    destruct (decide (RequestRow.id y = requestId)) as [Heq|Hne].
    + rewrite bool_decide_true in Hst' by done.
      rewrite patch_request_row in Hst'. by destruct act, next.
    + rewrite bool_decide_false in Hid' by done. done.
  - intros [-> ->]. split; [done|].
    eexists. split.
    + apply list_elem_of_fmap_2, list_elem_of_fmap. exists r.
      split; [|exact Hr]. by rewrite bool_decide_true.
    + by rewrite patch_request_row.
Qed.

Lemma request_moved_progress user requestId act now (r r' : RequestRow.t) :
  request_moved user requestId act now r r' → request_progress r r'.
Proof.
  intros [[_ ->]|(_ & _ & Hst & ->)]; unfold request_progress.
  - repeat split; auto.
  - cbn [RequestRow.id RequestRow.status]. rewrite Hst.
    destruct act; repeat split; simpl; auto; done.
Qed.

Lemma request_progress_trans (x y z : RequestRow.t) :
  request_progress x y → request_progress y z → request_progress x z.
Proof.
  intros (Hid & Hp & Ha & Hrest) (Hid' & Hp' & Ha' & Hrest').
  unfold request_progress. split; [congruence|]. split; [|split].
  - intros H. destruct (Hp H) as [Hy|[Hy|Hy]].
    + exact (Hp' Hy).
    + right. exact (Ha' Hy).
    + right. right. rewrite Hrest'; [exact Hy| |]; rewrite Hy; discriminate.
  - intros H. destruct (Ha H) as [Hy|Hy].
    + exact (Ha' Hy).
    + right. rewrite Hrest'; [exact Hy| |]; rewrite Hy; discriminate.
  - intros H1 H2. specialize (Hrest H1 H2). subst y. by apply Hrest'.
Qed.

Lemma Forall2_chain {A} (R S T : A → A → Prop) (l1 l2 l3 : list A) :
  (∀ x y z, R x y → S y z → T x z) →
  Forall2 R l1 l2 → Forall2 S l2 l3 → Forall2 T l1 l3.
Proof.
  intros H H12. revert l3.
  induction H12 as [|x y l1 l2 Hxy _ IH]; intros l3 H23;
    inversion H23; subst; constructor; eauto.
Qed.

(** X12: clicks made one after the other only advance a request.  On a
    steady queue take any run of clicks in which each click is made on the
    page as it is rendered after the action before it has finished (no two
    actions overlap).  Every stored request then only moves forward along
    pending, accepted, completed: a pending one ends pending, accepted or
    completed, an accepted one accepted or completed, and a request in any
    other status (completed, cancelled) is never changed at all; ids are
    kept and the queue is steady again. *)
Theorem request_clicks_only_advance user
    (st st' : world * Counselor.state) :
  steady_queue user st →
  rtc (request_click user) st st' →
  steady_queue user st'
  ∧ Forall2 request_progress
            (Db.counseling_requests (store (fst st)))
            (Db.counseling_requests (store (fst st'))).
Proof.
  intros Hsteady Hrun. induction Hrun as [st|st st1 st' Hstep _ IH].
  - split; [done|]. apply Forall2_diag. intros r. by repeat split; auto.
  - destruct Hstep as [requestId act w s Hclick].
    destruct (steady_request_rows user requestId act w s Hsteady Hclick)
      as (Hsteady1 & Hmoved).
    destruct (IH Hsteady1) as (Hsteady' & Hprogress). split; [done|].
    eapply Forall2_chain; [|exact Hmoved|exact Hprogress].
    intros x y z Hxy Hyz. eapply request_progress_trans; [|done].
    by eapply request_moved_progress.
Qed.

(** ** The cards, the badges and the lists *)

Lemma issue_counts_split (l : list BookIssue.t) :
  (Librarian.count_status "issued" l + Librarian.count_status "overdue" l
   + Librarian.count_status "requested" l
   + length (filter uncounted_issue l) = length l)%nat.
Proof.
  unfold Librarian.count_status, uncounted_issue.
  induction l as [|i l IH]; [done|].
  rewrite !filter_cons.
  destruct (decide (BookIssue.status i = "issued")) as [H1|H1];
    destruct (decide (BookIssue.status i = "overdue")) as [H2|H2];
    destruct (decide (BookIssue.status i = "requested")) as [H3|H3];
    try (by rewrite H1 in H2); try (by rewrite H1 in H3);
    try (by rewrite H2 in H3).
  all: destruct (decide (BookIssue.status i ≠ "issued"
                         ∧ BookIssue.status i ≠ "overdue"
                         ∧ BookIssue.status i ≠ "requested"))
         as [(?&?&?)|Hno]; try done;
    try (exfalso; apply Hno; by repeat split); simpl; lia.
Qed.

Lemma request_counts_split (l : list CounselingRequest.t) :
  (Counselor.count_status "pending" l + Counselor.count_status "accepted" l
   + Counselor.count_status "completed" l
   + length (filter uncounted_request l) = length l)%nat.
Proof.
  unfold Counselor.count_status, uncounted_request.
  induction l as [|i l IH]; [done|].
  rewrite !filter_cons.
  destruct (decide (CounselingRequest.status i = "pending")) as [H1|H1];
    destruct (decide (CounselingRequest.status i = "accepted")) as [H2|H2];
    destruct (decide (CounselingRequest.status i = "completed")) as [H3|H3];
    try (by rewrite H1 in H2); try (by rewrite H1 in H3);
    try (by rewrite H2 in H3).
  all: destruct (decide (CounselingRequest.status i ≠ "pending"
                         ∧ CounselingRequest.status i ≠ "accepted"
                         ∧ CounselingRequest.status i ≠ "completed"))
         as [(?&?&?)|Hno]; try done;
    try (exfalso; apply Hno; by repeat split); simpl; lia.
Qed.

(** X13: the status cards never count a row twice.  Of the librarian's
    issues each is counted by exactly one of Issued, Overdue and Requests,
    or by none when its status is anything else (returned); of the
    counselor's requests each is counted by exactly one of Pending, Active
    and Completed, or by none (cancelled), and Total Requests counts them
    all.  So the three cards never add up to more than the rows fetched. *)
Theorem status_cards_split (booksData : list Book.t)
    (issuesData : list BookIssue.t) (requestsData : list CounselingRequest.t) :
  let lib := Librarian.derive_stats booksData issuesData in
  let cou := Counselor.derive_stats requestsData in
  (Librarian.issuedBooks lib + Librarian.overdueBooks lib
   + Librarian.pendingRequests lib
   + length (filter uncounted_issue issuesData) = length issuesData)%nat
  ∧ (Counselor.pendingRequests cou + Counselor.activeRequests cou
     + Counselor.completedRequests cou
     + length (filter uncounted_request requestsData)
     = Counselor.totalRequests cou)%nat
  ∧ (Librarian.issuedBooks lib + Librarian.overdueBooks lib
     + Librarian.pendingRequests lib ≤ length issuesData)%nat
  ∧ (Counselor.pendingRequests cou + Counselor.activeRequests cou
     + Counselor.completedRequests cou ≤ Counselor.totalRequests cou)%nat.
Proof.
  cbv zeta. cbn [Librarian.derive_stats Counselor.derive_stats
    Librarian.issuedBooks Librarian.overdueBooks Librarian.pendingRequests
    Counselor.pendingRequests Counselor.activeRequests
    Counselor.completedRequests Counselor.totalRequests].
  pose proof (issue_counts_split issuesData).
  pose proof (request_counts_split requestsData).
  repeat split; lia.
Qed.

(** X14: when the magnitudes of each column of the fetched books add up
    to at most 2^53, the Total Books and Available cards are the exact sums
    of total_copies and of available_copies, whatever issues were fetched;
    so when, moreover, no book has more available than total copies, the
    Available card does not exceed the Total Books card. *)
Theorem available_card_bounded (booksData : list Book.t)
    (issuesData : list BookIssue.t) :
  exact_sums booksData →
  Forall (λ b, Book.available_copies b ≤ Book.total_copies b) booksData →
  let lib := Librarian.derive_stats booksData issuesData in
  Librarian.availableBooks lib ≤ Librarian.totalBooks lib
  ∧ Librarian.availableBooks lib = total_of Book.available_copies booksData
  ∧ Librarian.totalBooks lib = total_of Book.total_copies booksData.
Proof.
  intros [Ht Ha] Hle. cbv zeta.
  cbn [Librarian.derive_stats Librarian.availableBooks Librarian.totalBooks].
  rewrite !foldl_add_number_exact by (simpl; lia).
  split; [|split; lia]. rewrite !Z.add_0_l. by apply total_of_le.
Qed.

Lemma available_card_bounded_witness :
  let lib := Librarian.derive_stats sample_books sample_issues in
  Librarian.availableBooks lib ≤ Librarian.totalBooks lib
  ∧ Librarian.availableBooks lib = total_of Book.available_copies sample_books
  ∧ Librarian.totalBooks lib = total_of Book.total_copies sample_books.
Proof.
  apply (available_card_bounded sample_books sample_issues).
  - split; vm_compute; discriminate.
  - vm_compute. repeat constructor; discriminate.
Defined.

(** X15: both badge tables cover every status of their union type: for
    each of the four statuses the badge has an icon and its class ends in
    the style of that status, never in an undefined one, and the label is
    the status with its first letter in upper case. *)
Theorem badges_cover_statuses :
  (∀ status, status ∈ issue_statuses →
     let b := LibrarianView.getStatusBadge status in
     is_Some (Badge.icon b)
     ∧ (∃ style, LibrarianView.styles !! status = Some style
                 ∧ Badge.className b = badge_class +:+ style))
  ∧ (∀ status, status ∈ request_statuses →
       let b := CounselorView.getStatusBadge status in
       is_Some (Badge.icon b)
       ∧ (∃ style, CounselorView.styles !! status = Some style
                   ∧ Badge.className b = badge_class +:+ style))
  ∧ Badge.label <$> (LibrarianView.getStatusBadge <$> issue_statuses)
    = ["Requested"; "Issued"; "Returned"; "Overdue"]
  ∧ Badge.label <$> (CounselorView.getStatusBadge <$> request_statuses)
    = ["Pending"; "Accepted"; "Completed"; "Cancelled"].
Proof.
  split; [|split; [|split; by vm_compute]].
  - intros status Hin. unfold issue_statuses in Hin.
    repeat (apply elem_of_cons in Hin as [->|Hin]);
      [..|by apply elem_of_nil in Hin].
    all: split; [by eexists|eexists; split; by vm_compute].
  - intros status Hin. unfold request_statuses in Hin.
    repeat (apply elem_of_cons in Hin as [->|Hin]);
      [..|by apply elem_of_nil in Hin].
    all: split; [by eexists|eexists; split; by vm_compute].
Qed.

Lemma covered_request_icons (s : Counselor.state) :
  covered_requests s →
  Forall (λ c, is_Some (Badge.icon (CounselorView.badge c)))
         (CounselorView.card_of <$> take 5 (Counselor.requests s)).
Proof.
  intros Hcov. apply Forall_fmap. eapply Forall_impl; [|exact Hcov].
  intros request Hst. simpl in *. unfold request_statuses in Hst.
  repeat (apply elem_of_cons in Hst as [->|Hst]; [by eexists|]).
  by apply elem_of_nil in Hst.
Qed.

(** X16: over a snapshot whose shown rows all carry a declared status, a
    page that is not loading shows the first ten held issues (the first
    five held requests), in the snapshot's order and keyed by their ids,
    each with the icon of its badge; a list that is shown is never empty,
    the placeholder being shown instead exactly when the snapshot holds no
    row; and a loading page shows the spinner and nothing else. *)
Theorem lists_show_first_rows (sl : Librarian.state) (sc : Counselor.state) :
  covered sl →
  covered_requests sc →
  (LibrarianView.render sl = LibrarianView.Spinner
   ↔ Librarian.loading sl = true)
  ∧ (LibrarianView.render sl
     = LibrarianView.Page (Librarian.stats sl) LibrarianView.NoBookIssuesFound
     ↔ Librarian.loading sl = false ∧ Librarian.bookIssues sl = [])
  ∧ (∀ cards rows,
       LibrarianView.render sl
       = LibrarianView.Page cards (LibrarianView.Rows rows) →
       LibrarianView.key <$> rows
       = BookIssue.id <$> take 10 (Librarian.bookIssues sl)
       ∧ length rows = (length (Librarian.bookIssues sl) `min` 10)%nat
       ∧ (0 < length rows)%nat
       ∧ Forall (λ r, is_Some (Badge.icon (LibrarianView.badge r))) rows)
  ∧ (CounselorView.render sc = CounselorView.Spinner
     ↔ Counselor.loading sc = true)
  ∧ (CounselorView.render sc
     = CounselorView.Page (Counselor.stats sc)
         CounselorView.NoCounselingRequests
     ↔ Counselor.loading sc = false ∧ Counselor.requests sc = [])
  ∧ (∀ stats cards,
       CounselorView.render sc
       = CounselorView.Page stats (CounselorView.Cards cards) →
       CounselorView.key <$> cards
       = CounselingRequest.id <$> take 5 (Counselor.requests sc)
       ∧ length cards = (length (Counselor.requests sc) `min` 5)%nat
       ∧ (0 < length cards)%nat
       ∧ Forall (λ c, is_Some (Badge.icon (CounselorView.badge c))) cards).
Proof.
  intros Hl Hc.
  pose proof (covered_icons sl Hl) as Hli.
  pose proof (covered_request_icons sc Hc) as Hci.
  unfold LibrarianView.render, CounselorView.render.
  split; [|split; [|split; [|split; [|split]]]].
  - destruct (Librarian.loading sl); [done|]. by split.
  - destruct (Librarian.loading sl); [by split; [|intros [? _]]|].
    destruct (Librarian.bookIssues sl) as [|i l]; [done|].
    rewrite bool_decide_false by done. by split; [|intros [_ ?]].
  - intros cards rows. destruct (Librarian.loading sl); [done|].
    destruct (Librarian.bookIssues sl) as [|i l] eqn:Hi; [done|].
    rewrite bool_decide_false by done.
    remember (LibrarianView.row_of <$> take 10 (i :: l)) as shown eqn:Hs.
    intros [= _ <-]. subst shown. split; [|split; [|split; [|done]]].
    + rewrite <- list_fmap_compose. by apply list_fmap_ext.
    + rewrite length_fmap, length_take. lia.
    + rewrite length_fmap, length_take. cbn [length]. lia.
  - destruct (Counselor.loading sc); [done|]. by split.
  - destruct (Counselor.loading sc); [by split; [|intros [? _]]|].
    destruct (Counselor.requests sc) as [|i l]; [done|].
    rewrite bool_decide_false by done. by split; [|intros [_ ?]].
  - intros stats cards. destruct (Counselor.loading sc); [done|].
    destruct (Counselor.requests sc) as [|i l] eqn:Hi; [done|].
    rewrite bool_decide_false by done.
    remember (CounselorView.card_of <$> take 5 (i :: l)) as shown eqn:Hs.
    intros [= _ <-]. subst shown. split; [|split; [|split; [|done]]].
    + rewrite <- list_fmap_compose. by apply list_fmap_ext.
    + rewrite length_fmap, length_take. lia.
    + rewrite length_fmap, length_take. cbn [length]. lia.
Qed.

(** ** The administrator's settings *)

Lemma admin_handle_run (ev : Admin.event) (w : world) (s : Admin.state) :
  Admin.handle ev (w, s)
  = (Normal (),
     (after_calls w 0 (Alert <$> option_list (Admin.message ev)),
      settled ev s)).
Proof.
  destruct w as [d fates t tr]. unfold after_calls. cbn [store transport clock
    trace drop].
  destruct ev; simpl; rewrite ?(right_id_L [] (++)); try done.
  all: by destruct s.
Qed.

Lemma admin_handleAll_run (evs : list Admin.event) (w : world)
    (s : Admin.state) :
  Admin.handleAll evs (w, s)
  = (Normal (),
     (after_calls w 0 (Alert <$> omap Admin.message evs),
      settled_all evs s)).
Proof.
  revert w s. induction evs as [|ev evs IH]; intros w s.
  - destruct w. unfold after_calls. simpl. by rewrite (right_id_L [] (++)).
  - cbn [Admin.handleAll]. rewrite bind_run, admin_handle_run.
    cbv beta iota. rewrite IH, after_calls_0_0. do 3 f_equal.
    rewrite <- fmap_app. f_equal. simpl.
    by destruct (Admin.message ev).
Qed.

Lemma settled_button (ev : Admin.event) (s : Admin.state) :
  is_button ev → settled ev s = s.
Proof. intros [m Hm]. by destruct ev. Qed.

(** X17: nothing on the administrator's page reaches the backend.  Over
    any run of events no remote call is issued and the tables are
    untouched; each click on one of the five buttons shows its alert and
    nothing else is shown; and the buttons change no setting: the state
    after the run is the state after its edits and tab clicks alone. *)
Theorem admin_page_stays_local (evs : list Admin.event) (w : world)
    (s : Admin.state) :
  let r := Admin.handleAll evs (w, s) in
  let w' := fst (snd r) in
  fst r = Normal ()
  ∧ store w' = store w
  ∧ transport w' = transport w
  ∧ trace w' = trace w ++ (Alert <$> omap Admin.message evs)
  ∧ snd (snd r)
    = snd (snd (Admin.handleAll (filter (λ ev, ¬ is_button ev) evs) (w, s))).
Proof.
  cbv zeta. rewrite !admin_handleAll_run. cbn [fst snd after_calls store
    transport trace drop].
  repeat split. unfold settled_all. revert s.
  induction evs as [|ev evs IH]; intros s; [done|].
  rewrite filter_cons. destruct (decide (¬ is_button ev)) as [Hno|Hyes].
  - simpl. apply IH.
  - simpl. rewrite settled_button; [apply IH|].
    by destruct (decide (is_button ev)).
Qed.

Lemma settled_school_lookup (ev : Admin.event) (s : Admin.state)
    (k : string) :
  Admin.schoolInfo (settled ev s) !! k
  = match ev with
    | Admin.ChangeSchoolInfo g value =>
        if bool_decide (Admin.school_key g = k) then Some value
        else Admin.schoolInfo s !! k
    | _ => Admin.schoolInfo s !! k
    end.
Proof.
  destruct ev; try done. cbn [settled Admin.schoolInfo].
  destruct (decide (Admin.school_key f = k)) as [<-|Hne].
  - by rewrite bool_decide_true, lookup_insert_eq.
  - by rewrite bool_decide_false, lookup_insert_ne.
Qed.

Lemma school_field_after (evs : list Admin.event) (s : Admin.state)
    (f : Admin.school_field) :
  Admin.schoolInfo (settled_all evs s) !! Admin.school_key f
  = Admin.last_typed f (Admin.schoolInfo s !! Admin.school_key f) evs.
Proof.
  unfold settled_all, Admin.last_typed. revert s.
  induction evs as [|ev evs IH]; intros s; [done|].
  simpl. rewrite IH, settled_school_lookup. by destruct ev.
Qed.

Lemma school_other_after (evs : list Admin.event) (s : Admin.state)
    (k : string) :
  (∀ f, Admin.school_key f ≠ k) →
  Admin.schoolInfo (settled_all evs s) !! k = Admin.schoolInfo s !! k.
Proof.
  intros Hk. unfold settled_all. revert s.
  induction evs as [|ev evs IH]; intros s; [done|].
  simpl. rewrite IH, settled_school_lookup. destruct ev; try done.
  rewrite bool_decide_false; [done|apply Hk].
Qed.

Lemma last_typed_is_Some (f : Admin.school_field) (evs : list Admin.event)
    (shown : option string) :
  is_Some shown → is_Some (Admin.last_typed f shown evs).
Proof.
  unfold Admin.last_typed. revert shown.
  induction evs as [|ev evs IH]; intros shown Hshown; [done|].
  simpl. apply IH. destruct ev; try done. by destruct (bool_decide _).
Qed.

Lemma school_key_cases (k : string) :
  (∃ f, Admin.school_key f = k) ∨ (∀ f, Admin.school_key f ≠ k).
Proof.
  destruct (decide (k = "name")) as [->|?]; [left; by exists Admin.name|].
  destruct (decide (k = "motto")) as [->|?]; [left; by exists Admin.motto|].
  destruct (decide (k = "address")) as [->|?];
    [left; by exists Admin.address|].
  destruct (decide (k = "phone")) as [->|?]; [left; by exists Admin.phone|].
  destruct (decide (k = "email")) as [->|?]; [left; by exists Admin.email|].
  destruct (decide (k = "website")) as [->|?];
    [left; by exists Admin.website|].
  destruct (decide (k = "principalName")) as [->|?];
    [left; by exists Admin.principalName|].
  destruct (decide (k = "establishedYear")) as [->|?];
    [left; by exists Admin.establishedYear|].
  right. intros f. destruct f; simpl; congruence.
Qed.

(** X18: the school form keeps what was typed last.  After any run of
    events each field of [schoolInfo] holds the value of the last change
    made to that field, or what it held before when there was none; no
    property other than the eight fields is ever written, so a run from
    the initial state keeps exactly the eight properties. *)
Theorem school_form_keeps_last_typed (evs : list Admin.event) (w : world)
    (s : Admin.state) :
  let s' := snd (snd (Admin.handleAll evs (w, s))) in
  (∀ f, Admin.schoolInfo s' !! Admin.school_key f
        = Admin.last_typed f (Admin.schoolInfo s !! Admin.school_key f) evs)
  ∧ (∀ k, (∀ f, Admin.school_key f ≠ k) →
          Admin.schoolInfo s' !! k = Admin.schoolInfo s !! k)
  ∧ dom (Admin.schoolInfo
           (snd (snd (Admin.handleAll evs (w, Admin.initial)))))
    = dom (Admin.schoolInfo Admin.initial).
Proof.
  cbv zeta. rewrite !admin_handleAll_run. cbn [snd].
  split; [apply school_field_after|]. split; [apply school_other_after|].
  apply set_eq. intros k. rewrite !elem_of_dom.
  destruct (school_key_cases k) as [[f <-]|Hno].
  - rewrite school_field_after.
    assert (is_Some (Admin.schoolInfo Admin.initial !! Admin.school_key f))
      as Hinit by (by destruct f; eexists).
    split; [done|]. intros _. by apply last_typed_is_Some.
  - by rewrite school_other_after.
Qed.

(** ** Runs of the properties above on the sample libraries *)

Lemma refused_inventory_write_is_ignored_witness :
  let st := Librarian.mount inventory_failing_world in
  let w' := fst (snd (Librarian.handleIssueAction librarian_user "i1"
                        Librarian.approve (fst st, snd st))) in
  Db.books (store w') = Db.books (store (fst st))
  ∧ alerts (trace w') = alerts (trace (fst st)) ++ ["Book issued successfully!"].
Proof.
  destruct (refused_inventory_write_is_ignored librarian_user "i1"
              Librarian.approve
              (fst (Librarian.mount inventory_failing_world))
              (snd (Librarian.mount inventory_failing_world))
              inventory_failing_issue inventory_failing_book "row locked")
    as (Hbooks & _ & Hal); try reflexivity.
  split; [exact Hbooks|exact Hal].
Defined.

Lemma approve_then_return_restores_books_witness :
  let st1 := snd (Librarian.handleIssueAction librarian_user "i2"
                    Librarian.approve
                    (balanced_world, fetched (store balanced_world))) in
  let st2 := snd (Librarian.handleIssueAction librarian_user "i2"
                    Librarian.return_ st1) in
  Db.books (store (fst st2)) = Db.books (store balanced_world).
Proof.
  apply (approve_then_return_restores_books librarian_user "i2"
           balanced_world).
  - reflexivity.
  - vm_compute. repeat constructor. by intros ?%elem_of_nil.
  - constructor; [split; reflexivity|constructor].
Defined.

Lemma click_finds_issue_witness :
  ∃ issue,
    find_by BookIssue.id "i2" (Librarian.bookIssues (snd balanced_start))
    = Some issue
    ∧ BookIssue.id issue = "i2"
    ∧ (inventory_write Librarian.approve "i2" (snd balanced_start) = None
       ↔ BookIssue.book issue = None).
Proof.
  apply (click_finds_issue (snd balanced_start) "i2" Librarian.approve).
  vm_compute. apply list_elem_of_further, list_elem_of_here.
Defined.

Lemma click_moves_one_issue_witness :
  let st' := snd (Librarian.handleIssueAction librarian_user "i2"
                    Librarian.approve
                    (fst balanced_start, snd balanced_start)) in
  steady st'
  ∧ ∀ next, ("i2", next) ∈ offered (snd st')
            ↔ Librarian.approve = Librarian.approve
              ∧ next = Librarian.return_.
Proof.
  destruct (click_moves_one_issue librarian_user "i2" Librarian.approve
              (fst balanced_start) (snd balanced_start))
    as (Hsteady & _ & Hnext).
  - repeat split.
    + vm_compute. repeat constructor. by intros ?%elem_of_nil.
    + vm_compute. repeat constructor; [|by intros ?%elem_of_nil].
      intros Hin. apply elem_of_cons in Hin as [Hin|Hin]; [done|].
      by apply elem_of_nil in Hin.
  - vm_compute. apply list_elem_of_further, list_elem_of_here.
  - split; [exact Hsteady|exact Hnext].
Defined.

Lemma clicks_keep_copies_balanced_witness :
  let st' := snd (Librarian.handleIssueAction librarian_user "i2"
                    Librarian.approve
                    (fst balanced_start, snd balanced_start)) in
  steady st' ∧ roomy (store (fst st')) ∧ balanced (store (fst st')).
Proof.
  apply (clicks_keep_copies_balanced librarian_user balanced_start).
  - repeat split.
    + vm_compute. repeat constructor. by intros ?%elem_of_nil.
    + vm_compute. repeat constructor; [|by intros ?%elem_of_nil].
      intros Hin. apply elem_of_cons in Hin as [Hin|Hin]; [done|].
      by apply elem_of_nil in Hin.
  - constructor; [reflexivity|constructor].
  - repeat constructor.
  - apply rtc_once. apply (click_button librarian_user "i2" Librarian.approve).
    vm_compute. apply list_elem_of_further, list_elem_of_here.
Defined.

Lemma request_click_moves_one_witness :
  let st' := snd (Counselor.handleRequestAction counselor_user "r1"
                    Counselor.accept
                    (fst counselor_start, snd counselor_start)) in
  steady_queue counselor_user st'
  ∧ ∀ next, ("r1", next) ∈ offered_requests (snd st')
            ↔ Counselor.accept = Counselor.accept
              ∧ next = Counselor.complete.
Proof.
  destruct (request_click_moves_one counselor_user "r1" Counselor.accept
              (fst counselor_start) (snd counselor_start))
    as (Hsteady & _ & Hnext).
  - repeat split. vm_compute. repeat constructor. by intros ?%elem_of_nil.
  - vm_compute. apply list_elem_of_here.
  - split; [exact Hsteady|exact Hnext].
Defined.

Lemma request_clicks_only_advance_witness :
  let st' := snd (Counselor.handleRequestAction counselor_user "r1"
                    Counselor.accept
                    (fst counselor_start, snd counselor_start)) in
  steady_queue counselor_user st'
  ∧ Forall2 request_progress
            (Db.counseling_requests (store (fst counselor_start)))
            (Db.counseling_requests (store (fst st'))).
Proof.
  apply (request_clicks_only_advance counselor_user counselor_start).
  - repeat split. vm_compute. repeat constructor. by intros ?%elem_of_nil.
  - apply rtc_once.
    apply (request_click_button counselor_user "r1" Counselor.accept).
    vm_compute. apply list_elem_of_here.
Defined.

(** ** Stale pages, dates and cards *)

(** X19: when the status write is accepted and the reload that follows
    fails, the librarian's handler still reports success but the snapshot
    is the one held before: the page, unless it was loading, accepts
    exactly the same clicks as before the action, and a repeated click
    would issue the very same inventory write. *)
Theorem failed_reload_keeps_page user issueId act
    (w : world) (s : Librarian.state) (e : string) :
  fate w 0 = None →
  first_error (before_reload user issueId act w s) 2 = Some e →
  let st' := snd (Librarian.handleIssueAction user issueId act (w, s)) in
  Librarian.books (snd st') = Librarian.books s
  ∧ Librarian.bookIssues (snd st') = Librarian.bookIssues s
  ∧ Librarian.stats (snd st') = Librarian.stats s
  ∧ Librarian.loading (snd st') = false
  ∧ (Librarian.loading s = false → offered (snd st') = offered s)
  ∧ inventory_write act issueId (snd st') = inventory_write act issueId s
  ∧ alerts (trace (fst st')) = alerts (trace w) ++ [success_text act].
Proof.
  intros Hfate Hfail. cbv zeta.
  destruct (accepted_action user issueId act w s Hfate) as (_ & _ & Hal).
  cbv zeta in Hal. rewrite Hal, before_reload_alerts.
  rewrite handleIssueAction_run. cbv zeta. rewrite Hfate.
  fold (before_reload user issueId act w s).
  rewrite loadLibraryData_run, Hfail. unfold said. cbn [fst snd].
  repeat split; try done.
  intros Hload. rewrite !offered_rows. cbn [stopped Librarian.loading
    Librarian.bookIssues]. by rewrite Hload.
Qed.

Lemma failed_reload_keeps_page_witness :
  let st := Librarian.mount reload_failing_world in
  let st' := snd (Librarian.handleIssueAction librarian_user "i1"
                    Librarian.approve (fst st, snd st)) in
  offered (snd st') = offered (snd st)
  ∧ alerts (trace (fst st'))
    = alerts (trace (fst st)) ++ ["Book issued successfully!"].
Proof.
  destruct (failed_reload_keeps_page librarian_user "i1" Librarian.approve
              (fst (Librarian.mount reload_failing_world))
              (snd (Librarian.mount reload_failing_world)) "timeout")
    as (_ & _ & _ & _ & Hoffered & _ & Hal); try reflexivity.
  split; [apply Hoffered; reflexivity|exact Hal].
Defined.

Lemma split_T_0_chars (s : string) : "T"%char ∉ chars (split_T_0 s).
Proof.
  induction s as [|c s IH]; simpl; [by intros ?%elem_of_nil|].
  destruct (decide (c = "T"%char)) as [->|Hne].
  - rewrite bool_decide_true by done. by intros ?%elem_of_nil.
  - rewrite bool_decide_false by done. simpl.
    rewrite not_elem_of_cons. split; [congruence|done].
Qed.

Lemma split_T_0_prefix (date rest : string) :
  "T"%char ∉ chars date →
  split_T_0 (date +:+ String "T"%char rest) = date.
Proof.
  intros Hno. induction date as [|c date IH]; [done|].
  simpl in *. apply not_elem_of_cons in Hno as [Hc Hno].
  rewrite bool_decide_false by congruence. by rewrite IH.
Qed.

Lemma status_write_first user issueId act (w : world) (s : Librarian.state) :
  ∃ more,
    writes (trace (fst (snd (Librarian.handleIssueAction user issueId act
                               (w, s)))))
    = writes (trace w)
      ++ ("book_issues", issue_payload user act w, issueId) :: more.
Proof.
  destruct (fate w 0) as [e|] eqn:Hfate.
  - rewrite (failed_action _ _ _ _ _ e Hfate).
    cbn [fst snd after_calls written store trace].
    rewrite !writes_app. exists [].
    destruct act; cbn [failure_events writes omap list_omap];
      by rewrite !(right_id_L [] (++)).
  - destruct (accepted_action user issueId act w s Hfate) as (_ & Hwr & _).
    cbv zeta in Hwr. rewrite Hwr, before_reload_writes. by eexists.
Qed.

(** X20: the return date written on a return is the date part of the
    clock's reading.  When the reading is a date without T, then a T, then
    anything, the status write of a return carries status returned and that
    date as return_date, whatever the backend answers; and the date written
    never holds a T, whatever the clock reads. *)
Theorem return_date_is_date user issueId (w : world) (s : Librarian.state)
    (date rest : string) :
  "T"%char ∉ chars date →
  clock w = date +:+ String "T"%char rest →
  let w' := fst (snd (Librarian.handleIssueAction user issueId
                        Librarian.return_ (w, s))) in
  (∃ more,
     writes (trace w')
     = writes (trace w)
       ++ ("book_issues",
           <["return_date" := VStr date]> (<["status" := VStr "returned"]> ∅),
           issueId) :: more)
  ∧ ∀ t, "T"%char ∉ chars (split_T_0 t).
Proof.
  intros Hno Hclock. cbv zeta. split; [|apply split_T_0_chars].
  destruct (status_write_first user issueId Librarian.return_ w s)
    as [more Hwr].
  exists more. rewrite Hwr. unfold issue_payload.
  by rewrite Hclock, split_T_0_prefix.
Qed.

Lemma return_date_is_date_witness :
  let w := mk_world (Db.mk [] [] [] []) [] "2024-05-01T10:00:00.000Z" [] in
  ∃ more,
    writes (trace (fst (snd (Librarian.handleIssueAction librarian_user "i1"
                               Librarian.return_
                               (w, Librarian.initial)))))
    = ("book_issues",
       <["return_date" := VStr "2024-05-01"]>
         (<["status" := VStr "returned"]> ∅),
       "i1") :: more.
Proof.
  cbv zeta.
  refine (proj1 (return_date_is_date librarian_user "i1"
                   (mk_world (Db.mk [] [] [] []) []
                      "2024-05-01T10:00:00.000Z" [])
                   Librarian.initial "2024-05-01" "10:00:00.000Z" _ _)).
  - vm_compute. intros Hin.
    repeat (apply elem_of_cons in Hin as [Hin|Hin]; [discriminate|]).
    by apply elem_of_nil in Hin.
  - reflexivity.
Defined.

Lemma load_keeps_cards_in_step (w : world) (s : Librarian.state) :
  cards_in_step s →
  cards_in_step (snd (snd (Librarian.loadLibraryData (w, s)))).
Proof.
  intros Hs. rewrite loadLibraryData_run. cbn [snd].
  by destruct (first_error w 2).
Qed.

Lemma action_keeps_cards_in_step user issueId act
    (w : world) (s : Librarian.state) :
  cards_in_step s →
  cards_in_step (snd (snd (Librarian.handleIssueAction user issueId act
                             (w, s)))).
Proof.
  intros Hs. rewrite handleIssueAction_run. cbv zeta. cbn [snd].
  destruct (fate w 0); [done|]. unfold said. cbn [snd].
  by apply load_keeps_cards_in_step.
Qed.

(** X21: the cards are never out of step with the rows held.  From the
    first load on, after any run of actions and whatever the backend
    answers, the librarian's statistics are those derived from the books
    and issues in the component state; and the counselor's load and
    actions keep the same agreement between the statistics and the
    requests held. *)
Theorem cards_describe_rows_held user
    (acts : list (string * Librarian.action)) (w : world)
    (requestId : string) (act : Counselor.action) (sc : Counselor.state) :
  cards_in_step
    (snd (snd (Librarian.handleIssueActions user acts (Librarian.mount w))))
  ∧ request_cards_in_step Counselor.initial
  ∧ (request_cards_in_step sc →
     request_cards_in_step
       (snd (snd (Counselor.loadCounselingRequests user (w, sc))))
     ∧ request_cards_in_step
         (snd (snd (Counselor.handleRequestAction user requestId act
                      (w, sc))))).
Proof.
  split; [|split; [done|]].
  - assert (Hstart : cards_in_step (snd (Librarian.mount w))).
    { unfold Librarian.mount. by apply load_keeps_cards_in_step. }
    destruct (Librarian.mount w) as [w0 s0]. cbn [snd] in Hstart.
    revert w0 s0 Hstart.
    induction acts as [|[issueId a] acts IH]; intros w0 s0 Hstart; [done|].
    cbn [Librarian.handleIssueActions]. rewrite bind_run.
    pose proof (action_keeps_cards_in_step user issueId a w0 s0 Hstart) as H1.
    rewrite handleIssueAction_run in *. cbv beta iota.
    cbv zeta in *. cbn [snd] in H1.
    destruct (fate w0 0); [by apply IH|].
    destruct (said _ _) as [w1 s1]. by apply IH.
  - intros Hsc.
    assert (Hload : ∀ w1, request_cards_in_step
              (snd (snd (Counselor.loadCounselingRequests user (w1, sc))))).
    { intros w1. rewrite loadCounselingRequests_run. cbn [snd].
      destruct (truthy (user_id user)); [|done]. by destruct (fate w1 0). }
    split; [apply Hload|].
    rewrite handleRequestAction_run. cbv zeta. cbn [snd].
    destruct (fate w 0); [done|]. cbn [snd]. apply Hload.
Qed.

Lemma offered_clicks_witness :
  (∀ next, ("i2", next) ∈ offered (snd balanced_start)
           ↔ next = Librarian.approve)
  ∧ (length (offered (snd balanced_start)) ≤ 10)%nat.
Proof.
  destruct (offered_clicks (snd balanced_start)) as (Hoffered & Hlen & _).
  - apply (bool_decide_unpack _). vm_compute. exact I.
  - split; [|exact Hlen]. intros next. rewrite Hoffered. split.
    + intros (_ & issue & Hin & Hid & Hst). vm_compute in Hin.
      apply elem_of_cons in Hin as [->|Hin]; [discriminate|].
      apply elem_of_cons in Hin as [->|Hin]; [by destruct next|].
      by apply elem_of_nil in Hin.
    + intros ->. split; [reflexivity|]. eexists. split; [|split].
      * vm_compute. apply list_elem_of_further, list_elem_of_here.
      * reflexivity.
      * reflexivity.
Defined.

Lemma lists_show_first_rows_witness :
  ∃ rows cards,
    LibrarianView.render (snd balanced_start)
    = LibrarianView.Page (Librarian.stats (snd balanced_start))
        (LibrarianView.Rows rows)
    ∧ LibrarianView.key <$> rows = ["i1"; "i2"]
    ∧ CounselorView.render (snd counselor_start)
      = CounselorView.Page (Counselor.stats (snd counselor_start))
          (CounselorView.Cards cards)
      ∧ CounselorView.key <$> cards = ["r1"].
Proof.
  destruct (lists_show_first_rows (snd balanced_start) (snd counselor_start))
    as (_ & _ & Hrows & _ & _ & Hcards).
  - apply (bool_decide_unpack _). vm_compute. exact I.
  - apply (bool_decide_unpack _). vm_compute. exact I.
  - eexists _, _. split; [reflexivity|].
    split; [exact (proj1 (Hrows _ _ eq_refl))|].
    split; [reflexivity|]. exact (proj1 (Hcards _ _ eq_refl)).
Defined.
